(** * Link-validation engine of the GNB and SHOP checkers

    A shallow embedding of [check_link_validity] (gnb/gnb.py and
    shop/shop.py) and of the URL helpers of gnb/utility/utils.py, with the
    properties of the engine proved or refuted on it.

    Layout:
    - [PyStr]    : the Python string methods the sources call;
    - [UrlLib]   : [urllib.parse.urlparse] / [urlunparse] of the Python
                   standard library, as far as the sources use them;
    - [Utils]    : [standardize_url] and [refine_url] (gnb/utility/utils.py);
    - [Engine]   : nodes, [flatten_with_link], [validate_node], the worker
                   pool, for both variants;
    - the theorems. *)

From Stdlib Require Import ZArith List String Ascii Bool Lia DecimalString
  DecimalPos.
From stdpp Require Import base option list functions relations.
Import ListNotations.

Local Open Scope string_scope.
Local Open Scope Z_scope.

(** Python exceptions are carried as their message ([str(e)]).  [Raise] is an
    exception that [except Exception] catches. *)
Inductive result (A : Type) : Type :=
  | Ok (a : A)
  | Raise (msg : string).
Arguments Ok {A} a.
Arguments Raise {A} msg.

#[global] Instance result_ret : MRet result := fun _ a => Ok a.
#[global] Instance result_bind : MBind result := fun _ _ k r =>
  match r with
  | Ok a => k a
  | Raise m => Raise m
  end.

(** ** Python string methods *)
Module PyStr.

Definition is_empty (s : string) : bool :=
  match s with
  | EmptyString => true
  | String _ _ => false
  end.

(** [c in s] *)
Fixpoint contains (c : ascii) (s : string) : bool :=
  match s with
  | EmptyString => false
  | String d t => Ascii.eqb c d || contains c t
  end.

(** [s.find(c)]: [None] stands for Python's [-1]. *)
Fixpoint find (c : ascii) (s : string) : option nat :=
  match s with
  | EmptyString => None
  | String d t => if Ascii.eqb c d then Some O else option_map S (find c t)
  end.

(** [s.rfind(c)] *)
Fixpoint rfind (c : ascii) (s : string) : option nat :=
  match s with
  | EmptyString => None
  | String d t =>
      match rfind c t with
      | Some i => Some (S i)
      | None => if Ascii.eqb c d then Some O else None
      end
  end.

(** [s[:n]] and [s[n:]] for [n >= 0] *)
Fixpoint take (n : nat) (s : string) : string :=
  match n, s with
  | S k, String d t => String d (take k t)
  | _, _ => EmptyString
  end.

Fixpoint drop (n : nat) (s : string) : string :=
  match n, s with
  | S k, String _ t => drop k t
  | _, _ => s
  end.

(** [s.find(c, start)] for [start >= 0] *)
Definition find_from (c : ascii) (start : nat) (s : string) : option nat :=
  option_map (Nat.add start) (find c (drop start s)).

(** [s[:-1]] *)
Fixpoint drop_last (s : string) : string :=
  match s with
  | EmptyString => EmptyString
  | String d t => if is_empty t then EmptyString else String d (drop_last t)
  end.

(** [s.lstrip(chars)], [s.rstrip(chars)], [s.strip(chars)] with the set of
    characters given as a predicate *)
Fixpoint lstrip (p : ascii -> bool) (s : string) : string :=
  match s with
  | EmptyString => EmptyString
  | String d t => if p d then lstrip p t else s
  end.

Fixpoint rstrip (p : ascii -> bool) (s : string) : string :=
  match s with
  | EmptyString => EmptyString
  | String d t =>
      let t' := rstrip p t in
      if is_empty t' && p d then EmptyString else String d t'
  end.

Definition strip (p : ascii -> bool) (s : string) : string :=
  rstrip p (lstrip p s).

(** [s.replace(c, "")] for each [c] of a set of characters *)
Fixpoint remove (p : ascii -> bool) (s : string) : string :=
  match s with
  | EmptyString => EmptyString
  | String d t => if p d then remove p t else String d (remove p t)
  end.

(** [s.split(c, 1)] when [c in s]: the text before and after the first
    [c].  Without a [c] the whole string is the first part. *)
Fixpoint split1 (c : ascii) (s : string) : string * string :=
  match s with
  | EmptyString => (EmptyString, EmptyString)
  | String d t =>
      if Ascii.eqb c d then (EmptyString, t)
      else let '(a, b) := split1 c t in (String d a, b)
  end.

Definition startswith (pre s : string) : bool := String.prefix pre s.

Fixpoint forallb (p : ascii -> bool) (s : string) : bool :=
  match s with
  | EmptyString => true
  | String d t => p d && forallb p t
  end.

Definition code (c : ascii) : nat := nat_of_ascii c.

Definition in_range (lo hi : nat) (c : ascii) : bool :=
  (lo <=? code c)%nat && (code c <=? hi)%nat.

Definition is_upper (c : ascii) : bool := in_range 65 90 c.
Definition is_lower (c : ascii) : bool := in_range 97 122 c.
Definition is_digit (c : ascii) : bool := in_range 48 57 c.
Definition is_alpha (c : ascii) : bool := is_upper c || is_lower c.

(** A [str] is held as its UTF-8 encoding, one [ascii] for each byte; the
    ASCII characters are the bytes below 128 and the other characters take
    two to four bytes from 128 on.

    [str.isspace] on the ASCII range: TAB, LF, VT, FF, CR, FS, GS, RS, US
    and the space. *)
Definition is_space (c : ascii) : bool :=
  in_range 9 13 c || in_range 28 32 c.

(** [Py_ISSPACE], the white space that [int] skips on the ASCII range: TAB,
    LF, VT, FF, CR and the space. *)
Definition is_c_space (c : ascii) : bool :=
  in_range 9 13 c || (code c =? 32)%nat.

(** The white space outside ASCII (Unicode 14, the character database of
    CPython 3.11): U+0085 and U+00A0 in two bytes; U+1680, U+2000 to U+200A,
    U+2028, U+2029, U+202F, U+205F and U+3000 in three. *)
Definition is_space2 (a b : ascii) : bool :=
  (code a =? 194)%nat && ((code b =? 133)%nat || (code b =? 160)%nat).

Definition is_space3 (a b c : ascii) : bool :=
  ((code a =? 225)%nat && (code b =? 154)%nat && (code c =? 128)%nat)
  || ((code a =? 226)%nat && (code b =? 128)%nat
      && (in_range 128 138 c || in_range 168 169 c || (code c =? 175)%nat))
  || ((code a =? 226)%nat && (code b =? 129)%nat && (code c =? 159)%nat)
  || ((code a =? 227)%nat && (code b =? 128)%nat && (code c =? 128)%nat).

(** The text is one white-space character: an ASCII one accepted by [p],
    or one of those outside ASCII. *)
Definition is_space_char (p : ascii -> bool) (s : string) : bool :=
  match s with
  | String a EmptyString => p a
  | String a (String b EmptyString) => is_space2 a b
  | String a (String b (String c EmptyString)) => is_space3 a b c
  | _ => false
  end.

(** The white space is taken off the left end, off the right end, off both
    ends; [p] is the ASCII part of the white space. *)
Fixpoint lstrip_text (p : ascii -> bool) (s : string) : string :=
  match s with
  | String a t1 =>
      if p a then lstrip_text p t1
      else
        match t1 with
        | String b t2 =>
            if is_space2 a b then lstrip_text p t2
            else
              match t2 with
              | String c t3 => if is_space3 a b c then lstrip_text p t3 else s
              | EmptyString => s
              end
        | EmptyString => s
        end
  | EmptyString => s
  end.

Fixpoint rstrip_text (p : ascii -> bool) (s : string) : string :=
  match s with
  | EmptyString => EmptyString
  | String d t =>
      let t' := rstrip_text p t in
      if is_space_char p (String d t') then EmptyString else String d t'
  end.

(** [s.strip()] *)
Definition strip_space (s : string) : string :=
  rstrip_text is_space (lstrip_text is_space s).

Definition lower_char (c : ascii) : ascii :=
  if is_upper c then ascii_of_nat (code c + 32) else c.

(** [s.lower()] on ASCII letters *)
Fixpoint lower (s : string) : string :=
  match s with
  | EmptyString => EmptyString
  | String d t => String (lower_char d) (lower t)
  end.

(** [str(n)] for an [int].  The numbers the sources format, HTTP status
    codes and counts, are far below the 4300 digits from which [str]
    raises. *)
Definition str_of_int (n : Z) : string := NilZero.string_of_int (Z.to_int n).

(** The text with the bytes [l] *)
Definition of_codes (l : list nat) : string :=
  string_of_list_ascii (map ascii_of_nat l).

(** [sub in s] *)
Fixpoint has_sub (sub s : string) : bool :=
  if String.prefix sub s then true
  else match s with
       | EmptyString => false
       | String _ t => has_sub sub t
       end.

(** [s.split(c)] *)
Fixpoint split (c : ascii) (s : string) : list string :=
  match s with
  | EmptyString => [EmptyString]
  | String d t =>
      if Ascii.eqb c d then EmptyString :: split c t
      else
        match split c t with
        | x :: l => String d x :: l
        | [] => [String d EmptyString]
        end
  end.

(** The characters of a text as code points, decoded from UTF-8; [None]
    when the bytes are not the encoding of a text. *)
Definition continuation (c : ascii) : option N :=
  let x := N_of_ascii c in
  if ((128 <=? x) && (x <? 192))%N then Some (x - 128)%N else None.

Definition code_point (lo hi x : N) : option N :=
  if ((lo <=? x) && (x <=? hi) && negb ((55296 <=? x) && (x <=? 57343)))%N
  then Some x else None.

Fixpoint utf8_decode (s : string) : option (list N) :=
  match s with
  | EmptyString => Some []
  | String a t1 =>
      let x := N_of_ascii a in
      if (x <? 128)%N then cons x <$> utf8_decode t1
      else
        match t1 with
        | String b t2 =>
            if (x <? 224)%N then
              y ← continuation b;
              cp ← code_point 128 2047 ((x - 192) * 64 + y)%N;
              cons cp <$> utf8_decode t2
            else
              match t2 with
              | String c t3 =>
                  if (x <? 240)%N then
                    y ← continuation b;
                    z ← continuation c;
                    cp ← code_point 2048 65535
                           (((x - 224) * 64 + y) * 64 + z)%N;
                    cons cp <$> utf8_decode t3
                  else
                    match t3 with
                    | String d t4 =>
                        y ← continuation b;
                        z ← continuation c;
                        w ← continuation d;
                        cp ← code_point 65536 1114111
                               ((((x - 240) * 64 + y) * 64 + z) * 64 + w)%N;
                        cons cp <$> utf8_decode t4
                    | EmptyString => None
                    end
              | EmptyString => None
              end
        | EmptyString => None
        end
  end.

(** The decimal digits outside ASCII (Unicode 14): each code point of the
    list starts a run of the ten digits 0 to 9. *)
Definition decimal_runs : list N :=
  [1632; 1776; 1984; 2406; 2534; 2662; 2790; 2918; 3046; 3174; 3302;
   3430; 3558; 3664; 3792; 3872; 4160; 4240; 6112; 6160; 6470; 6608;
   6784; 6800; 6992; 7088; 7232; 7248; 42528; 43216; 43264; 43472;
   43504; 43600; 44016; 65296; 66720; 68912; 69734; 69872; 69942; 70096;
   70384; 70736; 70864; 71248; 71360; 71472; 71904; 72016; 72784; 73040;
   73120; 92768; 92864; 93008; 120782; 120792; 120802; 120812; 120822;
   123200; 123632; 125264; 130032]%N.

(** [Py_UNICODE_TODECIMAL]: the value of a decimal digit *)
Definition decimal_digit (c : N) : option Z :=
  if (c <? 128)%N then
    if ((48 <=? c) && (c <=? 57))%N then Some (Z.of_N (c - 48)) else None
  else
    match List.find (fun r => ((r <=? c) && (c <? r + 10))%N) decimal_runs
    with
    | Some r => Some (Z.of_N (c - r))
    | None => None
    end.

(** The digits and underscores a literal starts with: their number of
    digits, their value in base 10 and the characters after them.  An
    underscore stands between two digits; [None] when one does not, or when
    there is no digit. *)
Fixpoint int_scan (after_digit : bool) (digits : nat) (acc : Z) (l : list N)
  : option (nat * Z * list N) :=
  match l with
  | c :: t =>
      match decimal_digit c with
      | Some d => int_scan true (S digits) (10 * acc + d) t
      | None =>
          if (c =? 95)%N then
            if after_digit then int_scan false digits acc t else None
          else if after_digit then Some (digits, acc, l) else None
      end
  | [] => if after_digit then Some (digits, acc, []) else None
  end.

(** Some character of [s] is an ASCII letter. *)
Fixpoint has_letter (s : string) : bool :=
  match s with
  | EmptyString => false
  | String c t => is_alpha c || has_letter t
  end.

(** [sys.get_int_max_str_digits()] as CPython 3.11 starts with it *)
Definition int_max_str_digits : nat := 4300.

(** The sign that a literal starts with, and the text after it *)
Definition int_sign (s : string) : Z * string :=
  match s with
  | String c t =>
      if Ascii.eqb c "-" then (-1, t)
      else if Ascii.eqb c "+" then (1, t)
      else (1, s)
  | EmptyString => (1, s)
  end.

(** [int(s)] for a [str] in base 10: surrounding white space, an optional
    sign, then decimal digits with single underscores between them; more
    than [int_max_str_digits] digits are refused.  The messages are those of
    [ValueError], for a text whose [repr] is the text between quotes. *)
Definition int_of_str (s : string) : result Z :=
  let invalid :=
    Raise ("invalid literal for int() with base 10: '" ++ s ++ "'") in
  let '(sign, body) :=
    int_sign (rstrip_text is_c_space (lstrip_text is_c_space s)) in
  match utf8_decode body with
  | None => invalid
  | Some l =>
      match int_scan false 0 0 l with
      | None => invalid
      | Some (digits, n, rest) =>
          if (int_max_str_digits <? digits)%nat then
            Raise ("Exceeds the limit (4300 digits) for integer string "
                   ++ "conversion: value has "
                   ++ str_of_int (Z.of_nat digits)
                   ++ " digits; use sys.set_int_max_str_digits() "
                   ++ "to increase the limit")
          else
            match rest with
            | [] => Ok (sign * n)
            | _ :: _ => invalid
            end
      end
  end.

End PyStr.

(** ** [urllib.parse] of the Python standard library

    The sources call [urlparse] and [urlunparse]; they are embedded here from
    CPython 3.11 ([Lib/urllib/parse.py], with [ipaddress.ip_address] of
    [Lib/ipaddress.py] for a bracketed host) for [str] arguments, with
    [scheme=''] and [allow_fragments=True] as at every call of the sources.
    The messages of the exceptions that quote a text with [repr] hold the
    text between single quotes. *)
Module UrlLib.
Import PyStr.

Record ParseResult := mkParse {
  scheme : string;
  netloc : string;
  path : string;
  params : string;
  query : string;
  fragment : string
}.

Definition mem (s : string) (l : list string) : bool :=
  existsb (String.eqb s) l.

Definition uses_params : list string :=
  [""; "ftp"; "hdl"; "prospero"; "http"; "imap"; "https"; "shttp"; "rtsp";
   "rtspu"; "sip"; "sips"; "mms"; "sftp"; "tel"].

Definition uses_netloc : list string :=
  [""; "ftp"; "http"; "gopher"; "nntp"; "telnet"; "imap"; "wais"; "file";
   "mms"; "https"; "shttp"; "snews"; "prospero"; "rtsp"; "rtspu"; "rsync";
   "svn"; "svn+ssh"; "sftp"; "nfs"; "git"; "git+ssh"; "ws"; "wss"].

(** [scheme_chars]: letters, digits, [+], [-] and [.] *)
Definition scheme_char (c : ascii) : bool :=
  is_alpha c || is_digit c
  || Ascii.eqb c "+" || Ascii.eqb c "-" || Ascii.eqb c ".".

(** [_WHATWG_C0_CONTROL_OR_SPACE] *)
Definition c0_control_or_space (c : ascii) : bool := in_range 0 32 c.

(** [_UNSAFE_URL_BYTES_TO_REMOVE]: TAB, CR, LF *)
Definition unsafe_url_byte (c : ascii) : bool :=
  (code c =? 9)%nat || (code c =? 13)%nat || (code c =? 10)%nat.

(** [_splitnetloc(url, start)] *)
Definition _splitnetloc (url : string) (start : nat) : string * string :=
  let delim :=
    fold_left
      (fun delim c =>
         match find_from c start url with
         | Some wdelim => Nat.min delim wdelim
         | None => delim
         end)
      ["/"; "?"; "#"]%char (String.length url) in
  (take (delim - start) (drop start url), drop delim url).

Definition is_hex (c : ascii) : bool :=
  is_digit c || in_range 65 70 c || in_range 97 102 c.

Fixpoint count (c : ascii) (s : string) : nat :=
  match s with
  | EmptyString => O
  | String d t => ((if Ascii.eqb c d then 1 else 0) + count c t)%nat
  end.

(** [IPv4Address._parse_octet(octet_str)] succeeds *)
Definition _parse_octet (octet_str : string) : bool :=
  negb (is_empty octet_str)
  && forallb is_digit octet_str
  && (String.length octet_str <=? 3)%nat
  && (String.eqb octet_str "0" || negb (startswith "0" octet_str))
  && match NilEmpty.uint_of_string octet_str with
     | Some d => (Nat.of_uint d <=? 255)%nat
     | None => false
     end.

(** [IPv4Address(address)] succeeds *)
Definition ipv4_ok (address : string) : bool :=
  negb (contains "/" address)
  && negb (is_empty address)
  && (length (split "." address) =? 4)%nat
  && List.forallb _parse_octet (split "." address).

(** [IPv6Address._parse_hextet(hextet_str)] succeeds *)
Definition _parse_hextet (hextet_str : string) : bool :=
  forallb is_hex hextet_str
  && (String.length hextet_str <=? 4)%nat
  && negb (is_empty hextet_str).

(** [IPv6Address._split_scope_id(ip_str)]: the address before the scope;
    [None] when it raises. *)
Definition _split_scope_id (ip_str : string) : option string :=
  if contains "%" ip_str then
    let '(addr, scope_id) := split1 "%" ip_str in
    if is_empty scope_id || contains "%" scope_id then None else Some addr
  else Some ip_str.

(** The positions from [i] on at which [parts] has an empty text *)
Fixpoint empty_parts (i : nat) (parts : list string) : list nat :=
  match parts with
  | [] => []
  | part :: rest =>
      ((if is_empty part then [i] else []) ++ empty_parts (S i) rest)%list
  end.

(** [IPv6Address._ip_int_from_string(ip_str)] succeeds *)
Definition ipv6_parts_ok (ip_str : string) : bool :=
  let parts := split ":" ip_str in
  negb (is_empty ip_str)
  && (3 <=? length parts)%nat
  && (* an IPv4 suffix is replaced by its two parts *)
     (let last_part := List.last parts "" in
      negb (contains "." last_part) || ipv4_ok last_part)
  && let parts :=
       if contains "." (List.last parts "")
       then (List.removelast parts ++ ["0"; "0"])%list
       else parts in
     let total := length parts in
     (total <=? 9)%nat
     && match empty_parts 1 (List.removelast (List.tl parts)) with
        | [] =>
            (total =? 8)%nat && List.forallb _parse_hextet parts
        | [skip_index] =>
            let leading := is_empty (List.hd "" parts) in
            let trailing := is_empty (List.last parts "") in
            let parts_hi := (skip_index - if leading then 1 else 0)%nat in
            let parts_lo :=
              (total - skip_index - 1 - if trailing then 1 else 0)%nat in
            negb (leading && negb (parts_hi =? 0)%nat)
            && negb (trailing && negb (parts_lo =? 0)%nat)
            && (parts_hi + parts_lo <? 8)%nat
            && List.forallb _parse_hextet (List.firstn parts_hi parts)
            && List.forallb _parse_hextet
                 (List.skipn (total - parts_lo) parts)
        | _ => false
        end.

(** [IPv6Address(address)] succeeds *)
Definition ipv6_ok (address : string) : bool :=
  negb (contains "/" address)
  && match _split_scope_id address with
     | Some ip_str => ipv6_parts_ok ip_str
     | None => false
     end.

Inductive ip_version := IPv4 | IPv6.

(** [ipaddress.ip_address(address)]: which class the address is of *)
Definition ip_address (address : string) : result ip_version :=
  if ipv4_ok address then Ok IPv4
  else if ipv6_ok address then Ok IPv6
  else Raise ("'" ++ address
              ++ "' does not appear to be an IPv4 or IPv6 address").

(** [re.match(r"\Av[a-fA-F0-9]+\..+\Z", hostname)] *)
Definition ipvfuture_ok (hostname : string) : bool :=
  match hostname with
  | String "v" rest =>
      let '(digits, tail) := split1 "." rest in
      negb (is_empty digits) && forallb is_hex digits
      && contains "." rest && negb (is_empty tail)
      && negb (contains "010" tail)   (* [.] does not match a line feed *)
  | _ => false
  end.

(** [_check_bracketed_host(hostname)] *)
Definition _check_bracketed_host (hostname : string) : result unit :=
  if startswith "v" hostname then
    if ipvfuture_ok hostname then Ok tt
    else Raise "IPvFuture address is invalid"
  else
    ip ← ip_address hostname;
    match ip with
    | IPv4 => Raise "An IPv4 address cannot be in brackets"
    | IPv6 => Ok tt
    end.

(** The characters outside ASCII whose NFKC normal form holds one of
    [/ ? # @ :] (Unicode 14): U+2047 to U+2049, U+2100, U+2101, U+2105,
    U+2106, U+2A74, U+FE13, U+FE16, U+FE55, U+FE56, U+FE5F, U+FE6B, U+FF03,
    U+FF0F, U+FF1A, U+FF1F and U+FF20, in UTF-8. *)
Definition nfkc_delimiters : list string :=
  map of_codes
      [[226; 129; 135]; [226; 129; 136]; [226; 129; 137];
       [226; 132; 128]; [226; 132; 129]; [226; 132; 133];
       [226; 132; 134]; [226; 169; 180]; [239; 184; 147];
       [239; 184; 150]; [239; 185; 149]; [239; 185; 150];
       [239; 185; 159]; [239; 185; 171]; [239; 188; 131];
       [239; 188; 143]; [239; 188; 154]; [239; 188; 159]; [239; 188; 160]]%nat.

(** [_checknetloc(netloc)]: the normal form of the text holds a delimiter
    when one of its characters brings it. *)
Definition _checknetloc (netloc : string) : result unit :=
  if is_empty netloc || forallb (fun c => (code c <? 128)%nat) netloc
  then Ok tt
  else if existsb (fun c => has_sub c netloc) nfkc_delimiters
  then Raise ("netloc '" ++ netloc ++ "' contains invalid "
              ++ "characters under NFKC normalization")
  else Ok tt.

(** [s.rpartition(c)[2]] *)
Definition after_last (c : ascii) (s : string) : string :=
  match rfind c s with
  | Some i => drop (S i) s
  | None => s
  end.

(** [_check_bracketed_netloc(netloc)] *)
Definition _check_bracketed_netloc (netloc : string) : result unit :=
  let hostname_and_port := after_last "@" netloc in
  if contains "[" hostname_and_port then
    let '(before_bracket, bracketed) := split1 "[" hostname_and_port in
    if negb (is_empty before_bracket) then Raise "Invalid IPv6 URL"
    else
      let '(hostname, port) := split1 "]" bracketed in
      if negb (is_empty port) && negb (startswith ":" port)
      then Raise "Invalid IPv6 URL"
      else _check_bracketed_host hostname
  else
    _check_bracketed_host (fst (split1 ":" hostname_and_port)).

(** [urlsplit(url)]: scheme, netloc, path, query, fragment *)
Definition urlsplit (url : string)
  : result (string * string * string * string * string) :=
  let url := lstrip c0_control_or_space url in
  let url := remove unsafe_url_byte url in
  let '(scheme, url) :=
    match find ":" url, url with
    | Some (S i), String c0 _ =>
        if is_alpha c0 && forallb scheme_char (take (S i) url)
        then (lower (take (S i) url), drop (S (S i)) url)
        else ("", url)
    | _, _ => ("", url)
    end in
  '(netloc, url) ←
    (if startswith "//" url then
       let '(netloc, url) := _splitnetloc url 2 in
       if (contains "[" netloc && negb (contains "]" netloc))
          || (contains "]" netloc && negb (contains "[" netloc))
       then Raise "Invalid IPv6 URL"
       else if contains "[" netloc && contains "]" netloc
       then _ ← _check_bracketed_netloc netloc; Ok (netloc, url)
       else Ok (netloc, url)
     else Ok ("", url));
  let '(url, fragment) :=
    if contains "#" url then split1 "#" url else (url, "") in
  let '(url, query) :=
    if contains "?" url then split1 "?" url else (url, "") in
  _ ← _checknetloc netloc;
  Ok (scheme, netloc, url, query, fragment).

(** [_splitparams(url)] *)
Definition _splitparams (url : string) : string * string :=
  let cut (i : option nat) :=
    match i with
    | Some i => (take i url, drop (S i) url)
    | None => (drop_last url, url)       (* url[:-1], url[0:] *)
    end in
  if contains "/" url then
    match find_from ";" (default O (rfind "/" url)) url with
    | None => (url, "")
    | Some i => cut (Some i)
    end
  else cut (find ";" url).

(** [urlparse(url)] *)
Definition urlparse (url : string) : result ParseResult :=
  '(scheme, netloc, url, query, fragment) ← urlsplit url;
  let '(url, params) :=
    if mem scheme uses_params && contains ";" url then _splitparams url
    else (url, "") in
  Ok (mkParse scheme netloc url params query fragment).

(** [urlunsplit((scheme, netloc, url, query, fragment))] *)
Definition urlunsplit (scheme netloc url query fragment : string) : string :=
  let url :=
    if negb (is_empty netloc)
       || (negb (is_empty scheme) && mem scheme uses_netloc
           && negb (String.eqb (take 2 url) "//"))
    then
      let url :=
        if negb (is_empty url) && negb (String.eqb (take 1 url) "/")
        then "/" ++ url else url in
      "//" ++ netloc ++ url
    else url in
  let url := if negb (is_empty scheme) then scheme ++ ":" ++ url else url in
  let url := if negb (is_empty query) then url ++ "?" ++ query else url in
  let url := if negb (is_empty fragment) then url ++ "#" ++ fragment else url in
  url.

(** [urlunparse((scheme, netloc, url, params, query, fragment))] *)
Definition urlunparse (p : ParseResult) : string :=
  let url :=
    if negb (is_empty (params p)) then path p ++ ";" ++ params p
    else path p in
  urlunsplit (scheme p) (netloc p) url (query p) (fragment p).

End UrlLib.

(** ** gnb/utility/utils.py *)
Module Utils.
Import PyStr UrlLib.

Definition is_slash (c : ascii) : bool := Ascii.eqb c "/".
Definition is_blank (c : ascii) : bool := Ascii.eqb c " ".

(** [standardize_url(url)] *)
Definition standardize_url (url : string) : result string :=
  parsed ← urlparse url;
  let normalized_path := rstrip is_slash (path parsed) in
  Ok (urlunparse (mkParse (scheme parsed) (netloc parsed) normalized_path
                    (params parsed) (query parsed) (fragment parsed))).

(** [refine_url(url, base_domain)] *)
Definition refine_url (url base_domain : string) : result string :=
  if is_empty url then Ok url
  else
    let url := strip_space url in
    let url := remove is_blank url in
    if startswith "//" url then
      parsed_base ← urlparse base_domain;
      let scheme :=
        if is_empty (scheme parsed_base) then "https"
        else scheme parsed_base in
      Ok (scheme ++ ":" ++ url)
    else
      parsed ← urlparse url;
      if is_empty (netloc parsed) then
        let url := if startswith "/" url then url else "/" ++ url in
        Ok (rstrip is_slash base_domain ++ url)
      else Ok url.

End Utils.


(** ** The engine: [check_link_validity] of gnb/gnb.py and shop/shop.py

    The two files differ in [flatten_with_link] and in the first lines of
    [validate_node]; the rest is the same text.  [variant] selects the file.
    Logging is not represented. *)
Module Engine.
Import PyStr.

Inductive variant := Gnb | Shop.

(** [GnbMenuNode] / [ShopMenuNode]: the attributes the engine reads and
    the three it writes.  [children] is the shape of [tree] below. *)
Record node := mkNode {
  node_type : string;
  name : string;
  url : string;
  link_status : Z;
  link_validate : bool;
  link_validate_desc : string
}.

Definition set_link_status (x : Z) (n : node) : node :=
  mkNode (node_type n) (name n) (url n) x (link_validate n)
    (link_validate_desc n).
Definition set_link_validate (x : bool) (n : node) : node :=
  mkNode (node_type n) (name n) (url n) (link_status n) x
    (link_validate_desc n).
Definition set_link_validate_desc (x : string) (n : node) : node :=
  mkNode (node_type n) (name n) (url n) (link_status n) (link_validate n) x.

(** Nodes are Python objects: a node is a reference into a store, and the
    menu tree holds references. *)
Definition ref := nat.
Abbreviation store := (ref -> node).

#[warnings="-register-all"]
Inductive tree := Tree (r : ref) (children : list tree).

(** The condition under which [flatten_with_link] appends the node:
    [node.url] in gnb, [node.url or node.node_type in ("L0", "L1")] in
    shop. *)
Definition has_link (v : variant) (n : node) : bool :=
  match v with
  | Gnb => negb (is_empty (url n))
  | Shop =>
      negb (is_empty (url n))
      || String.eqb (node_type n) "L0" || String.eqb (node_type n) "L1"
  end.

Fixpoint flatten_with_link (v : variant) (h : store) (t : tree) : list ref :=
  match t with
  | Tree r children =>
      (if has_link v (h r) then [r] else [])
        ++ flat_map (flatten_with_link v h) children
  end.

(** What the browser does at one pass of the retry loop. *)
Record response := mkResponse { status : Z; response_url : string }.

Inductive closing := CloseOk | CloseRaises (msg : string).

Inductive attempt :=
  | NewPageRaises (msg : string)
      (** [context.new_page()] raises *)
  | NavRaises (msg : string)
      (** [goto] or [wait_for_selector] raises an [Exception] *)
  | NavAborts
      (** [goto] or [wait_for_selector] raises an exception that is not an
          [Exception] and that asyncio keeps in the task it ends:
          [CancelledError], or another [BaseException] other than
          [KeyboardInterrupt] and [SystemExit] (these two are raised out of
          the event loop, which the model does not represent) *)
  | NavReturns (r : option response) (c : closing).
      (** [goto] returns [r], the body is found, and [new_page.close()]
          behaves as [c] *)

(** How one pass of the loop body ends. *)
Inductive flow := Continue | Return | Escape.

Inductive exit := Returned | Escaped.

Definition max_retries : nat := 5.

(** The passes that end in the [except] branch or without a response: the
    loop goes on and only the description has changed. *)
Definition failed (a : attempt) : bool :=
  match a with
  | NewPageRaises _ | NavRaises _ | NavReturns None _ => true
  | NavAborts | NavReturns (Some _) _ => false
  end.

(** The passes in which [new_page.close()] does not raise. *)
Definition closes_cleanly (a : attempt) : bool :=
  match a with
  | NavReturns _ (CloseRaises _) => false
  | _ => true
  end.


Section Validator.
(** [refine_url] and [standardize_url] of the variant's [utility.utils] *)
Variable refine_url : string -> string -> result string.
Variable standardize_url : string -> result string.
Variable v : variant.

(** The [except Exception as e] branch: the description is overwritten;
    a failure of the tab's [close()] is swallowed there. *)
Definition on_exception (msg : string) (n : node) : node :=
  set_link_validate_desc ("Exception: " ++ msg) n.

(** [new_page.close()] inside the [try] *)
Definition after_close (c : closing) (f : flow) (status_code : Z) (n : node)
  : flow * Z * node :=
  match c with
  | CloseOk => (f, status_code, n)
  | CloseRaises msg => (Continue, status_code, on_exception msg n)
  end.

(** One pass of the body of [while retries < max_retries], up to (not
    including) [retries += 1]. *)
Definition attempt_once (a : attempt) (url base_url : string)
    (status_code : Z) (n : node) : flow * Z * node :=
  match a with
  | NewPageRaises msg => (Continue, status_code, on_exception msg n)
  | _ =>
      match refine_url url base_url with
      | Raise msg => (Continue, status_code, on_exception msg n)
      | Ok refined =>
          match a with
          | NewPageRaises msg | NavRaises msg =>
              (Continue, status_code, on_exception msg n)
          | NavAborts => (Escape, status_code, n)
          | NavReturns (Some response) c =>
              let status_code := status response in
              let n := set_link_status status_code n in
              if status_code =? 200 then
                match standardize_url refined,
                      standardize_url (response_url response) with
                | Raise msg, _ | Ok _, Raise msg =>
                    (Continue, status_code, on_exception msg n)
                | Ok requested, Ok final =>
                    let n :=
                      if negb (String.eqb requested final) then
                        set_link_validate_desc
                          ("Redirected to " ++ response_url response) n
                      else set_link_validate_desc "" n in
                    let n := set_link_validate true n in
                    after_close c Return status_code n
                end
              else
                let n :=
                  set_link_validate_desc
                    ("HTTP " ++ str_of_int status_code) n in
                after_close c Return status_code n
          | NavReturns None c =>
              let n := set_link_validate_desc "No response" n in
              after_close c Continue status_code n
          end
      end
  end.

(** The loop [while retries < max_retries] and the assignment after it.
    [left] is [max_retries - retries]; the second component of the result
    counts the passes, that is the calls of [context.new_page()]. *)
Fixpoint attempts (world : nat -> attempt) (url base_url : string)
    (left retries : nat) (status_code : Z) (n : node)
  : exit * nat * node :=
  match left with
  | O => (Returned, retries, set_link_status status_code n)
  | S left' =>
      match attempt_once (world retries) url base_url status_code n with
      | (Return, _, n') => (Returned, S retries, n')
      | (Escape, _, n') => (Escaped, S retries, n')
      | (Continue, status_code', n') =>
          attempts world url base_url left' (S retries) status_code' n'
      end
  end.

(** The three assignments that open [validate_node] *)
Definition reset (n : node) : node :=
  set_link_validate_desc "" (set_link_status (-1) (set_link_validate false n)).

(** The lines of [validate_node] before the loop: [inl] when the function
    returns there, [inr] when it goes on to the loop. *)
Definition prologue (n : node) : node + node :=
  let n := reset n in
  let url := url n in
  if match v with Shop => true | Gnb => false end
     && String.eqb (node_type n) "L0" && is_empty url then
    inl (set_link_validate_desc "L0 has no link by design"
           (set_link_status (-1) (set_link_validate true n)))
  else if match v with Shop => true | Gnb => false end
          && String.eqb (node_type n) "L1" && is_empty url then
    inl (set_link_validate_desc "Has no link"
           (set_link_status (-1) (set_link_validate false n)))
  else if is_empty url then
    inl (set_link_validate_desc "[Status:-1] Empty url" n)
  else inr n.

(** [base_url], from the URL of the page the menu was read from *)
Definition base_url_of (page_url : string) : string :=
  match UrlLib.urlparse page_url with
  | Ok p => UrlLib.scheme p ++ "://" ++ UrlLib.netloc p
  | Raise _ => ""
  end.

(** [validate_node(node, idx, total)]: how it ends, the number of
    navigation attempts, and the node as it leaves it. *)
Definition validate_node (page_url : string) (world : nat -> attempt)
    (n : node) : exit * nat * node :=
  match prologue n with
  | inl n' => (Returned, O, n')
  | inr n' =>
      attempts world (url n') (base_url_of page_url) max_retries O (-1) n'
  end.

(** *** The queue and the workers

    A work item is the tuple [(node, idx, total)].  A worker task is
    suspended either in [queue.get()] or inside [validate_node], in one of
    the awaits of a pass of the loop; asyncio runs one task at a time between
    two awaits.  A step of the pool is one worker running from where it is
    suspended through one pass of the loop, or through the lines of
    [validate_node] before the loop; the scheduler of the model may also
    switch workers when a worker has marked an item done. *)
Record item := mkItem { it_node : ref; it_idx : nat; it_total : nat }.

Inductive task :=
  | Waiting
      (** suspended in [await queue.get()] *)
  | Validating (it : item) (url : string) (retries : nat) (status_code : Z)
      (** inside [validate_node(node, idx, total)], about to run the pass
          numbered [retries] with these local variables *)
  | Ended.
      (** the task is over: an exception left [worker] *)

(** [unfinished] is the counter that [queue.put] increments, [task_done]
    decrements and [queue.join()] waits on.  [handed] is not in the source:
    it records, in order, which worker received which item from
    [queue.get()]. *)
Record pool := mkPool {
  queue : list item;
  unfinished : nat;
  tasks : list task;
  heap : store;
  handed : list (nat * item)
}.

Variable page_url : string.
Variable world : ref -> nat -> attempt.

(** Worker [w] runs until its next suspension.  [None]: it cannot run (it
    waits on an empty queue, or is over, or does not exist). *)
Definition worker_step (w : nat) (p : pool) : option pool :=
  match tasks p !! w with
  | Some Waiting =>
      match queue p with
      | [] => None
      | it :: q =>
          let r := it_node it in
          let log := (handed p ++ [(w, it)])%list in
          match prologue (heap p r) with
          | inl n' =>
              (* validate_node returned; finally: queue.task_done() *)
              Some (mkPool q (pred (unfinished p)) (tasks p)
                      (<[r := n']> (heap p)) log)
          | inr n' =>
              Some (mkPool q (unfinished p)
                      (<[w := Validating it (url n') O (-1)]> (tasks p))
                      (<[r := n']> (heap p)) log)
          end
      end
  | Some (Validating it url retries status_code) =>
      let r := it_node it in
      match attempt_once (world r retries) url (base_url_of page_url)
              status_code (heap p r) with
      | (Return, _, n') =>
          Some (mkPool (queue p) (pred (unfinished p))
                  (<[w := Waiting]> (tasks p)) (<[r := n']> (heap p))
                  (handed p))
      | (Escape, _, n') =>
          (* finally: queue.task_done(); the exception ends the task *)
          Some (mkPool (queue p) (pred (unfinished p))
                  (<[w := Ended]> (tasks p)) (<[r := n']> (heap p))
                  (handed p))
      | (Continue, status_code', n') =>
          if (S retries <? max_retries)%nat then
            Some (mkPool (queue p) (unfinished p)
                    (<[w := Validating it url (S retries) status_code']>
                       (tasks p))
                    (<[r := n']> (heap p)) (handed p))
          else
            (* the loop is left: node.link_status = status_code *)
            Some (mkPool (queue p) (pred (unfinished p))
                    (<[w := Waiting]> (tasks p))
                    (<[r := set_link_status status_code' n']> (heap p))
                    (handed p))
      end
  | Some Ended | None => None
  end.

Definition step (p p' : pool) : Prop := exists w, worker_step w p = Some p'.

(** The workers named by a schedule run in turn. *)
Fixpoint run (sched : list nat) (p : pool) : option pool :=
  match sched with
  | [] => Some p
  | w :: sched' =>
      match worker_step w p with
      | Some p' => run sched' p'
      | None => None
      end
  end.

(** [await queue.join()] returns once every item is marked done. *)
Definition joined (p : pool) : bool := (unfinished p =? 0)%nat.

(** No worker can run any more. *)
Definition blocked (p : pool) : Prop := forall w, worker_step w p = None.

(** The queue is filled from the flattened roots, then the workers are
    created. *)
Definition enqueue (all_nodes : list ref) : list item :=
  imap (fun i node => mkItem node (S i) (length all_nodes)) all_nodes.

Definition all_nodes_of (h : store) (nodes : list tree) : list ref :=
  flat_map (flatten_with_link v h) nodes.

Definition start (max_concurrent : Z) (h : store) (nodes : list tree) : pool :=
  let all_nodes := all_nodes_of h nodes in
  mkPool (enqueue all_nodes) (length all_nodes)
    (replicate (Z.to_nat max_concurrent) Waiting) h [].

(** [int(os.getenv("LINKVALIDATE_COUNT", 2))]; [getenv] is the value of the
    variable in the environment, if it is set. *)
Definition max_concurrent_of (getenv : option string) : result Z :=
  match getenv with
  | None => Ok 2
  | Some s => int_of_str s
  end.

(** [check_link_validity(nodes, page)] up to the creation of the workers *)
Definition check_link_validity_start (getenv : option string) (h : store)
    (nodes : list tree) : result pool :=
  max_concurrent ← max_concurrent_of getenv;
  Ok (start max_concurrent h nodes).

End Validator.

(** The item a worker is validating, and the items in validation. *)
Definition holding (t : task) : option item :=
  match t with
  | Validating it _ _ _ => Some it
  | Waiting | Ended => None
  end.

Definition in_flight (ts : list task) : list item := omap holding ts.

(** Every node object of a tree, the root first. *)
Fixpoint tree_refs (t : tree) : list ref :=
  match t with
  | Tree r children => r :: flat_map tree_refs children
  end.

(** What every state of a run keeps true, for the items [all] put on the
    queue and the store [h0] the run started from. *)
Record pool_inv (all : list item) (h0 : store) (p : pool) : Prop := mkInv {
  inv_handed : ((handed p).*2 ++ queue p)%list = all;
  inv_flight : (in_flight (tasks p) ++ queue p)%list ⊆+ all;
  inv_count :
    unfinished p = (length (in_flight (tasks p)) + length (queue p))%nat;
  inv_frame : forall r, r ∉ it_node <$> all -> heap p r = h0 r
}.

End Engine.

(** ** More of the engine *)

(** The passes in which an exception leaves [validate_node]. *)
Definition aborts (a : Engine.attempt) : bool :=
  match a with
  | Engine.NavAborts => true
  | _ => false
  end.

(** The attributes the engine only reads. *)
Definition same_identity (n n' : Engine.node) : Prop :=
  Engine.node_type n' = Engine.node_type n
  /\ Engine.name n' = Engine.name n
  /\ Engine.url n' = Engine.url n.

(** A verdict is explained: a node that is not validated carries a
    description. *)
Definition explained (n : Engine.node) : Prop :=
  Engine.link_validate n = false -> Engine.link_validate_desc n <> "".

(** What [validate_node] makes of the node [r] as the store [h] has it. *)
Definition outcome (refine_url : string -> string -> result string)
    (standardize_url : string -> result string) (v : Engine.variant)
    (page_url : string) (world : Engine.ref -> nat -> Engine.attempt)
    (h : Engine.store) (r : Engine.ref) : Engine.exit * nat * Engine.node :=
  Engine.validate_node refine_url standardize_url v page_url (world r) (h r).

(** How far the validation of every node has come in a state of the pool:
    the queued nodes are as the run found them, a node in validation is in
    a state from which the rest of the loop gives the outcome of
    [validate_node], and the other enqueued nodes carry that outcome. *)
Record progress_inv (refine_url : string -> string -> result string)
    (standardize_url : string -> result string) (v : Engine.variant)
    (page_url : string) (world : Engine.ref -> nat -> Engine.attempt)
    (all : list Engine.item) (h0 : Engine.store) (p : Engine.pool) : Prop :=
  mkProgress {
    prog_queue :
      forall it, it ∈ Engine.queue p ->
        Engine.heap p (Engine.it_node it) = h0 (Engine.it_node it);
    prog_flight :
      forall w it u k sc,
        Engine.tasks p !! w = Some (Engine.Validating it u k sc) ->
        (k < Engine.max_retries)%nat
        /\ Engine.attempts refine_url standardize_url
             (world (Engine.it_node it)) u (Engine.base_url_of page_url)
             (Engine.max_retries - k) k sc
             (Engine.heap p (Engine.it_node it))
           = outcome refine_url standardize_url v page_url world h0
               (Engine.it_node it);
    prog_done :
      forall r,
        r ∈ Engine.it_node <$> all ->
        r ∉ Engine.it_node <$>
            (Engine.in_flight (Engine.tasks p) ++ Engine.queue p)%list ->
        Engine.heap p r
        = (outcome refine_url standardize_url v page_url world h0 r).2
  }.

(** ** More of gnb/utility/utils.py *)
Module UrlCompare.
Import PyStr UrlLib Utils.

(** [compare_url_without_domain(left_url, right_url)] *)
Definition compare_url_without_domain (left_url right_url : string)
  : result bool :=
  if is_empty left_url || is_empty right_url then Ok false
  else
    left_parsed ← urlparse left_url;
    right_parsed ← urlparse right_url;
    let left_path := rstrip is_slash (path left_parsed) in
    let right_path := rstrip is_slash (path right_parsed) in
    if is_empty (netloc left_parsed) || is_empty (netloc right_parsed) then
      Ok (String.eqb left_path right_path
          && String.eqb (params left_parsed) (params right_parsed)
          && String.eqb (query left_parsed) (query right_parsed)
          && String.eqb (fragment left_parsed) (fragment right_parsed))
    else
      Ok (String.eqb (scheme left_parsed) (scheme right_parsed)
          && String.eqb left_path right_path
          && String.eqb (params left_parsed) (params right_parsed)
          && String.eqb (query left_parsed) (query right_parsed)
          && String.eqb (fragment left_parsed) (fragment right_parsed)).

(** Every byte of the text is an ASCII character. *)
Definition is_ascii (s : string) : bool :=
  PyStr.forallb (fun c => (code c <? 128)%nat) s.

End UrlCompare.

(** ** The counts of [print_gnb_tree] and [print_shop_tree] *)

(** [count_links(node)] of [print_gnb_tree] *)
Fixpoint count_links (h : Engine.store) (node : Engine.tree) : nat :=
  match node with
  | Engine.Tree r children =>
      let cnt := if PyStr.is_empty (Engine.url (h r)) then 0%nat else 1%nat in
      fold_left (fun cnt child => (cnt + count_links h child)%nat) children cnt
  end.

(** [count_l1_featured(node)] of [print_gnb_tree]; the two [nonlocal]
    counters are passed and returned. *)
Fixpoint count_l1_featured (h : Engine.store) (node : Engine.tree)
    (counts : nat * nat) : nat * nat :=
  match node with
  | Engine.Tree _ children =>
      fold_left
        (fun '(l1_count, featured_count) child =>
           let counts :=
             match child with
             | Engine.Tree c _ =>
                 if String.eqb (Engine.node_type (h c)) "L1"
                 then (S l1_count, featured_count)
                 else if String.eqb (Engine.node_type (h c)) "Featured"
                 then (l1_count, S featured_count)
                 else (l1_count, featured_count)
             end in
           count_l1_featured h child counts)
        children counts
  end.

(** [count_l1_product_link(node)] of [print_shop_tree], with its three
    counters. *)
Fixpoint count_l1_product_link (h : Engine.store) (node : Engine.tree)
    (counts : nat * nat * nat) : nat * nat * nat :=
  match node with
  | Engine.Tree _ children =>
      fold_left
        (fun '(l1_count, product_count, link_count) child =>
           match child with
           | Engine.Tree c _ =>
               let '(l1_count, product_count) :=
                 if String.eqb (Engine.node_type (h c)) "L1"
                 then (S l1_count, product_count)
                 else if String.eqb (Engine.node_type (h c)) "Product"
                 then (l1_count, S product_count)
                 else (l1_count, product_count) in
               let link_count :=
                 if PyStr.is_empty (Engine.url (h c)) then link_count
                 else S link_count in
               count_l1_product_link h child
                 (l1_count, product_count, link_count)
           end)
        children counts
  end.

(** The three counts [print_shop_tree] reports for one root. *)
Definition shop_brief (h : Engine.store) (root : Engine.tree)
    : nat * nat * nat :=
  match root with
  | Engine.Tree r _ =>
      let link_count :=
        if PyStr.is_empty (Engine.url (h r)) then 0%nat else 1%nat in
      count_l1_product_link h root (0%nat, 0%nat, link_count)
  end.

(** The nodes below the root of a tree. *)
Definition descendants (t : Engine.tree) : list Engine.ref :=
  match t with
  | Engine.Tree _ children => flat_map Engine.tree_refs children
  end.

(** How many of the nodes [l] satisfy [f]. *)
Definition count_where (f : Engine.node -> bool) (h : Engine.store)
    (l : list Engine.ref) : nat :=
  length (List.filter (fun r => f (h r)) l).

Definition is_type (type : string) (n : Engine.node) : bool :=
  String.eqb (Engine.node_type n) type.

Definition has_url (n : Engine.node) : bool :=
  negb (PyStr.is_empty (Engine.url n)).

(** ** File names of the saved trees

    [save_gnb_tree_to_json] and [save_shop_tree_to_json] build the name of
    the file from the URL; [extract_sitecode_from_filename] of
    shop/json2excel.py reads the site code back from it.  [os.path] is the
    POSIX one. *)
Module Files.
Import PyStr.

(** [s.replace(c, d)] for two characters *)
Fixpoint replace_char (c d : ascii) (s : string) : string :=
  match s with
  | EmptyString => EmptyString
  | String x t =>
      String (if Ascii.eqb x c then d else x) (replace_char c d t)
  end.

(** [re.sub(r'^https?://', '', url)] *)
Definition url_wo_protocol (url : string) : string :=
  if startswith "https://" url then drop 8 url
  else if startswith "http://" url then drop 7 url
  else url.

(** [safe_url] of both functions *)
Definition safe_url (url : string) : string :=
  replace_char ":" "_"
    (replace_char "&" "_"
       (replace_char "?" "_" (replace_char "/" "_" (url_wo_protocol url)))).









End Files.

(** ** The gnb variant with its own [utility.utils] *)
Definition gnb_validate_node : string -> (nat -> Engine.attempt) ->
    Engine.node -> Engine.exit * nat * Engine.node :=
  Engine.validate_node Utils.refine_url Utils.standardize_url Engine.Gnb.

Definition gnb_worker_step : string -> (Engine.ref -> nat -> Engine.attempt) ->
    nat -> Engine.pool -> option Engine.pool :=
  Engine.worker_step Utils.refine_url Utils.standardize_url Engine.Gnb.

Definition gnb_run : string -> (Engine.ref -> nat -> Engine.attempt) ->
    list nat -> Engine.pool -> option Engine.pool :=
  Engine.run Utils.refine_url Utils.standardize_url Engine.Gnb.

(** ** Concrete nodes, browsers and trees *)
Module Examples.
Import Engine.

Definition page : string := "https://example.com/uk/".

(** A node as a caller may hand it over, with result fields of its own. *)
Definition link (type url : string) : node :=
  mkNode type "menu" url 7 true "not applicable".

Definition responds (code : Z) (final : string) : nat -> attempt :=
  fun _ => NavReturns (Some (mkResponse code final)) CloseOk.

Definition times_out : nat -> attempt :=
  fun _ => NavRaises "Timeout 20000ms exceeded.".

Definition timeout_message : nat -> string :=
  fun _ => "Timeout 20000ms exceeded.".

(** Two menu entries under one root; the root has no link. *)
Definition menu_store : store :=
  fun r =>
    match r with
    | O => link "L0" ""
    | 1%nat => link "L1" "/a"
    | 2%nat => link "Featured" "/b"
    | _ => link "Product" ""
    end.

Definition menu : list tree :=
  [Tree 0%nat [Tree 1%nat []; Tree 2%nat []; Tree 3%nat []]].

(** The browser aborts the first attempt on node 1 and answers 200 to the
    rest. *)
Definition aborting_browser : ref -> nat -> attempt :=
  fun r k =>
    match r, k with
    | 1%nat, O => NavAborts
    | _, _ => NavReturns (Some (mkResponse 200 "https://example.com/b")) CloseOk
    end.

Definition answering_browser : ref -> nat -> attempt :=
  fun _ => responds 200 "https://example.com/b".

Definition no_response : nat -> attempt :=
  fun _ => NavReturns None CloseOk.

(** The first attempt times out, the second gets no response, and from the
    third on the browser answers with status [code] from [final]. *)
Definition answers_third (code : Z) (final : string) : nat -> attempt :=
  fun k =>
    match k with
    | O => NavRaises "Timeout 20000ms exceeded."
    | 1%nat => NavReturns None CloseOk
    | _ => NavReturns (Some (mkResponse code final)) CloseOk
    end.

(** The browser answers 200 from [final] and the tab fails to close, at
    every attempt. *)
Definition closing_fails (final : string) : nat -> attempt :=
  fun _ =>
    NavReturns (Some (mkResponse 200 final))
      (CloseRaises "Target page, context or browser has been closed").

(** A gnb store whose node 0 has a blank as its URL. *)
Definition blank_store : store := fun _ => link "L1" " ".

(** The state of the gnb pool after the workers of a schedule have run (the
    initial state when the schedule cannot be run). *)
Definition gnb_after (world : ref -> nat -> attempt) (max_concurrent : Z)
    (h : store) (nodes : list tree) (sched : list nat) : pool :=
  default (start Gnb max_concurrent h nodes)
    (gnb_run page world sched (start Gnb max_concurrent h nodes)).

Definition shop_after (world : ref -> nat -> attempt) (max_concurrent : Z)
    (h : store) (nodes : list tree) (sched : list nat) : pool :=
  default (start Shop max_concurrent h nodes)
    (run Utils.refine_url Utils.standardize_url Shop page world sched
       (start Shop max_concurrent h nodes)).

End Examples.

(** * Properties *)

Import PyStr Engine.

(** ** Strings *)

Lemma is_empty_true (s : string) : is_empty s = true <-> s = "".
Proof. destruct s; simpl; split; congruence. Qed.

Lemma is_empty_false (s : string) : is_empty s = false <-> s <> "".
Proof. destruct s; simpl; split; congruence. Qed.

Lemma alpha_code (c : ascii) :
  is_alpha c = true ->
  (65 <= code c <= 90)%nat \/ (97 <= code c <= 122)%nat.
Proof.
  unfold is_alpha, is_upper, is_lower, in_range.
  rewrite orb_true_iff, !andb_true_iff, !Nat.leb_le. tauto.
Qed.

Lemma alpha_not_c_space (c : ascii) :
  is_alpha c = true -> is_c_space c = false.
Proof.
  intros H. apply alpha_code in H. unfold is_c_space, in_range.
  rewrite orb_false_iff, !andb_false_iff, !Nat.leb_gt, Nat.eqb_neq. lia.
Qed.

Lemma space2_high (a b : ascii) :
  is_space2 a b = true -> (128 <= code a)%nat /\ (128 <= code b)%nat.
Proof.
  unfold is_space2.
  rewrite andb_true_iff, orb_true_iff, !Nat.eqb_eq. lia.
Qed.

Lemma space3_high (a b c : ascii) :
  is_space3 a b c = true ->
  (128 <= code a)%nat /\ (128 <= code b)%nat /\ (128 <= code c)%nat.
Proof.
  unfold is_space3, in_range.
  rewrite !orb_true_iff, !andb_true_iff, !orb_true_iff, !andb_true_iff,
    !Nat.eqb_eq, !Nat.leb_le.
  lia.
Qed.

Lemma high_not_alpha (c : ascii) :
  (128 <= code c)%nat -> is_alpha c = false.
Proof.
  intros H. destruct (is_alpha c) eqn:E; [|reflexivity].
  apply alpha_code in E. lia.
Qed.

(** Stripping white space keeps the letters. *)
Section Letters.
Variable p : ascii -> bool.
Hypothesis p_no_letter : forall c, is_alpha c = true -> p c = false.

Lemma space_not_alpha (c : ascii) : p c = true -> is_alpha c = false.
Proof.
  intros H. destruct (is_alpha c) eqn:E; [|reflexivity].
  rewrite (p_no_letter c E) in H. discriminate.
Qed.

Lemma has_letter_lstrip_text (n : nat) (s : string) :
  (String.length s <= n)%nat ->
  has_letter s = true -> has_letter (lstrip_text p s) = true.
Proof.
  revert s. induction n as [|n IH]; intros s Hn Hs.
  - destruct s; [discriminate Hs|simpl in Hn; lia].
  - destruct s as [|a t1]; [discriminate Hs|].
    cbn [lstrip_text]. simpl in Hn.
    destruct (p a) eqn:Ea.
    { apply IH; [lia|]. simpl in Hs.
      rewrite (space_not_alpha a Ea) in Hs. exact Hs. }
    destruct t1 as [|b t2]; [exact Hs|]. simpl in Hn.
    destruct (is_space2 a b) eqn:Eab.
    { apply space2_high in Eab as [Ha Hb]. apply IH; [lia|]. simpl in Hs.
      rewrite (high_not_alpha a Ha), (high_not_alpha b Hb) in Hs. exact Hs. }
    destruct t2 as [|c t3]; [exact Hs|]. simpl in Hn.
    destruct (is_space3 a b c) eqn:Eabc; [|exact Hs].
    apply space3_high in Eabc as (Ha & Hb & Hc). apply IH; [lia|].
    simpl in Hs.
    rewrite (high_not_alpha a Ha), (high_not_alpha b Hb),
      (high_not_alpha c Hc) in Hs.
    exact Hs.
Qed.

Lemma space_char_no_letter (s : string) :
  is_space_char p s = true -> has_letter s = false.
Proof.
  destruct s as [|a [|b [|c [|d t]]]]; simpl; try discriminate.
  - intros H. rewrite (space_not_alpha a H). reflexivity.
  - intros H. apply space2_high in H as [Ha Hb].
    rewrite (high_not_alpha a Ha), (high_not_alpha b Hb). reflexivity.
  - intros H. apply space3_high in H as (Ha & Hb & Hc).
    rewrite (high_not_alpha a Ha), (high_not_alpha b Hb),
      (high_not_alpha c Hc).
    reflexivity.
Qed.

Lemma has_letter_rstrip_text (s : string) :
  has_letter s = true -> has_letter (rstrip_text p s) = true.
Proof.
  induction s as [|d t IH]; [discriminate|]. intros Hs.
  cbn [rstrip_text].
  assert (Hkeep : has_letter (String d (rstrip_text p t)) = true).
  { simpl in Hs |- *. destruct (is_alpha d); [reflexivity|].
    simpl in Hs |- *. apply IH, Hs. }
  destruct (is_space_char p (String d (rstrip_text p t))) eqn:E;
    [|exact Hkeep].
  apply space_char_no_letter in E. congruence.
Qed.

End Letters.

(** A character that [int_scan] cannot read is neither a decimal digit nor
    an underscore. *)
Local Abbreviation unreadable :=
  (fun c : N => decimal_digit c = None /\ (c =? 95)%N = false).

Lemma letter_unreadable (a : ascii) :
  is_alpha a = true -> unreadable (N_of_ascii a).
Proof.
  intros H. apply alpha_code in H. unfold code, nat_of_ascii in H.
  unfold decimal_digit.
  assert (Hlt : (N_of_ascii a <? 128)%N = true) by (apply N.ltb_lt; lia).
  rewrite Hlt. split.
  - destruct ((48 <=? N_of_ascii a) && (N_of_ascii a <=? 57))%N eqn:E;
      [|reflexivity].
    apply andb_true_iff in E as [E1 E2].
    apply N.leb_le in E1, E2. lia.
  - apply N.eqb_neq. lia.
Qed.

Lemma continuation_high (b : ascii) (y : N) :
  continuation b = Some y -> is_alpha b = false.
Proof.
  unfold continuation. intros H. apply high_not_alpha.
  destruct ((128 <=? N_of_ascii b) && (N_of_ascii b <? 192))%N eqn:E;
    [|discriminate].
  apply andb_true_iff in E as [E _]. apply N.leb_le in E.
  unfold code, nat_of_ascii. lia.
Qed.

Lemma utf8_decode_letter (n : nat) (s : string) (l : list N) :
  (String.length s <= n)%nat ->
  has_letter s = true -> utf8_decode s = Some l ->
  List.Exists unreadable l.
Proof.
  revert s l. induction n as [|n IH]; intros s l Hn Hs Hd.
  - destruct s; [discriminate Hs|simpl in Hn; lia].
  - destruct s as [|a t1]; [discriminate Hs|].
    cbn [utf8_decode] in Hd. simpl in Hn.
    destruct (N_of_ascii a <? 128)%N eqn:Ea.
    { destruct (utf8_decode t1) as [l1|] eqn:E1; [|discriminate Hd].
      injection Hd as <-. simpl in Hs.
      destruct (is_alpha a) eqn:Eal.
      - apply Exists_cons_hd, letter_unreadable, Eal.
      - apply Exists_cons_tl, (IH t1); [lia|exact Hs|exact E1]. }
    assert (Hal : is_alpha a = false).
    { apply high_not_alpha. apply N.ltb_ge in Ea.
      unfold code, nat_of_ascii. lia. }
    simpl in Hs. rewrite Hal in Hs. simpl in Hs.
    destruct t1 as [|b t2]; [discriminate Hd|]. simpl in Hn.
    destruct (N_of_ascii a <? 224)%N.
    { destruct (continuation b) as [y|] eqn:Eb; [|discriminate Hd].
      simpl in Hd.
      destruct (code_point _ _ _) as [cp|]; [|discriminate Hd]. simpl in Hd.
      destruct (utf8_decode t2) as [l2|] eqn:E2; [|discriminate Hd].
      injection Hd as <-. simpl in Hs.
      rewrite (continuation_high b y Eb) in Hs.
      apply Exists_cons_tl, (IH t2); [lia|exact Hs|exact E2]. }
    destruct t2 as [|c t3]; [discriminate Hd|]. simpl in Hn.
    destruct (N_of_ascii a <? 240)%N.
    { destruct (continuation b) as [y|] eqn:Eb; [|discriminate Hd].
      simpl in Hd.
      destruct (continuation c) as [z|] eqn:Ec; [|discriminate Hd].
      simpl in Hd.
      destruct (code_point _ _ _) as [cp|]; [|discriminate Hd]. simpl in Hd.
      destruct (utf8_decode t3) as [l3|] eqn:E3; [|discriminate Hd].
      injection Hd as <-. simpl in Hs.
      rewrite (continuation_high b y Eb), (continuation_high c z Ec) in Hs.
      apply Exists_cons_tl, (IH t3); [lia|exact Hs|exact E3]. }
    destruct t3 as [|d t4]; [discriminate Hd|]. simpl in Hn.
    destruct (continuation b) as [y|] eqn:Eb; [|discriminate Hd].
    simpl in Hd.
    destruct (continuation c) as [z|] eqn:Ec; [|discriminate Hd].
    simpl in Hd.
    destruct (continuation d) as [w|] eqn:Ed; [|discriminate Hd].
    simpl in Hd.
    destruct (code_point _ _ _) as [cp|]; [|discriminate Hd]. simpl in Hd.
    destruct (utf8_decode t4) as [l4|] eqn:E4; [|discriminate Hd].
    injection Hd as <-. simpl in Hs.
    rewrite (continuation_high b y Eb), (continuation_high c z Ec),
      (continuation_high d w Ed) in Hs.
    apply Exists_cons_tl, (IH t4); [lia|exact Hs|exact E4].
Qed.

Lemma int_scan_unreadable (l : list N) :
  List.Exists unreadable l ->
  forall (after_digit : bool) (digits : nat) (acc : Z) r,
    int_scan after_digit digits acc l = Some r -> r.2 <> [].
Proof.
  induction 1 as [c t [Hd Hu]|c t _ IH]; intros after_digit digits acc r Hr.
  - cbn [int_scan] in Hr. rewrite Hd, Hu in Hr.
    destruct after_digit; [|discriminate Hr].
    injection Hr as <-. discriminate.
  - cbn [int_scan] in Hr.
    destruct (decimal_digit c); [exact (IH _ _ _ _ Hr)|].
    destruct (c =? 95)%N.
    + destruct after_digit; [exact (IH _ _ _ _ Hr)|discriminate Hr].
    + destruct after_digit; [|discriminate Hr].
      injection Hr as <-. discriminate.
Qed.

Lemma int_sign_letter (s : string) :
  has_letter s = true -> has_letter (int_sign s).2 = true.
Proof.
  destruct s as [|c t]; [discriminate|]. intros H. unfold int_sign.
  destruct (Ascii.eqb c "-") eqn:E1.
  { apply Ascii.eqb_eq in E1. subst c. exact H. }
  destruct (Ascii.eqb c "+") eqn:E2; [|exact H].
  apply Ascii.eqb_eq in E2. subst c. exact H.
Qed.

Lemma int_of_str_letter (s : string) :
  has_letter s = true -> exists msg, int_of_str s = Raise msg.
Proof.
  intros H. unfold int_of_str.
  apply (has_letter_lstrip_text is_c_space alpha_not_c_space
           (String.length s) s (le_n _)) in H.
  apply (has_letter_rstrip_text is_c_space alpha_not_c_space) in H.
  apply int_sign_letter in H.
  destruct (int_sign _) as [sign rest]. simpl in H.
  destruct (utf8_decode rest) as [l|] eqn:Ed; [|eauto].
  pose proof (utf8_decode_letter _ rest l (le_n _) H Ed) as Hex.
  destruct (int_scan false 0 0 l) as [[[digits n] r]|] eqn:Es; [|eauto].
  apply (int_scan_unreadable l Hex) in Es. simpl in Es.
  destruct (int_max_str_digits <? digits)%nat; [eauto|].
  destruct r; [congruence|eauto].
Qed.

(** *** The decimal spelling of an integer is read back *)

Lemma plain_not_space2 (a b : ascii) :
  (code a <? 128)%nat = true -> is_space2 a b = false.
Proof.
  intros H. apply Nat.ltb_lt in H.
  destruct (is_space2 a b) eqn:E; [|reflexivity].
  apply space2_high in E. lia.
Qed.

Lemma plain_not_space3 (a b c : ascii) :
  (code a <? 128)%nat = true -> is_space3 a b c = false.
Proof.
  intros H. apply Nat.ltb_lt in H.
  destruct (is_space3 a b c) eqn:E; [|reflexivity].
  apply space3_high in E. lia.
Qed.

(** A text of ASCII characters none of which is white space has nothing
    to strip. *)
Lemma strip_text_plain (p : ascii -> bool) (s : string) :
  forallb (fun c => negb (p c) && (code c <? 128)%nat) s = true ->
  rstrip_text p (lstrip_text p s) = s.
Proof.
  intros H.
  assert (Hl : lstrip_text p s = s).
  { destruct s as [|a t1]; [reflexivity|]. simpl in H.
    apply andb_true_iff in H as [Ha _].
    apply andb_true_iff in Ha as [Hp Ha]. apply negb_true_iff in Hp.
    cbn [lstrip_text]. rewrite Hp.
    destruct t1 as [|b t2]; [reflexivity|].
    rewrite (plain_not_space2 a b Ha).
    destruct t2 as [|c t3]; [reflexivity|].
    rewrite (plain_not_space3 a b c Ha). reflexivity. }
  rewrite Hl. clear Hl.
  induction s as [|d t IH]; [reflexivity|]. simpl in H.
  apply andb_true_iff in H as [Hd Ht].
  apply andb_true_iff in Hd as [Hp Hd]. apply negb_true_iff in Hp.
  cbn [rstrip_text]. rewrite (IH Ht).
  destruct t as [|b [|c [|e t']]]; cbn [is_space_char];
    rewrite ?Hp, ?(plain_not_space2 d _ Hd), ?(plain_not_space3 d _ _ Hd);
    reflexivity.
Qed.

Lemma string_of_uint_plain (d : Decimal.uint) :
  forallb (fun c => negb (is_c_space c) && (code c <? 128)%nat)
    (NilEmpty.string_of_uint d) = true.
Proof. induction d; simpl; try exact IHd; reflexivity. Qed.

Lemma string_of_uint_length (d : Decimal.uint) :
  String.length (NilEmpty.string_of_uint d) = Decimal.nb_digits d.
Proof. induction d; simpl; congruence. Qed.

Lemma int_sign_uint (d : Decimal.uint) :
  int_sign (NilEmpty.string_of_uint d) = (1, NilEmpty.string_of_uint d).
Proof. destruct d; reflexivity. Qed.

Lemma of_uint_acc_value (d : Decimal.uint) :
  forall p : positive,
    Z.pos (Pos.of_uint_acc d p)
    = Z.pos p * 10 ^ Z.of_nat (Decimal.nb_digits d)
      + Z.of_N (Pos.of_uint d).
Proof.
  induction d; intros p; cbn [Pos.of_uint_acc Pos.of_uint Decimal.nb_digits];
    rewrite ?Nat2Z.inj_succ, ?Z.pow_succ_r by lia;
    rewrite ?IHd; cbn [Z.of_N]; rewrite ?IHd; try lia.
Qed.

Ltac scan_digit c IH :=
  let l := fresh "l" in
  let Hl := fresh "Hl" in
  let Hs := fresh "Hs" in
  destruct IH as (l & Hl & Hs);
  exists (N_of_ascii c :: l); split;
  [ cbn [NilEmpty.string_of_uint]; cbn [utf8_decode];
    change (N_of_ascii c <? 128)%N with true; cbn iota;
    rewrite Hl; reflexivity
  | intros b k acc _; cbn [int_scan];
    let r := eval vm_compute in (decimal_digit (N_of_ascii c)) in
    change (decimal_digit (N_of_ascii c)) with r;
    cbn iota;
    rewrite (Hs true) by (right; reflexivity);
    cbn [Decimal.nb_digits Pos.of_uint Z.of_N];
    rewrite ?of_uint_acc_value, Nat2Z.inj_succ, Z.pow_succ_r by lia;
    rewrite Nat.add_succ_r; do 3 f_equal; ring ].

Lemma int_scan_uint (d : Decimal.uint) :
  exists l,
    utf8_decode (NilEmpty.string_of_uint d) = Some l
    /\ forall (b : bool) (k : nat) (acc : Z),
         d <> Decimal.Nil \/ b = true ->
         int_scan b k acc l
         = Some ((k + Decimal.nb_digits d)%nat,
                 acc * 10 ^ Z.of_nat (Decimal.nb_digits d)
                 + Z.of_N (Pos.of_uint d),
                 []).
Proof.
  induction d.
  - exists []. split; [reflexivity|]. intros b k acc [H|H]; [congruence|].
    subst b. simpl. rewrite Nat.add_0_r. do 3 f_equal. lia.
  - scan_digit "0"%char IHd.
  - scan_digit "1"%char IHd.
  - scan_digit "2"%char IHd.
  - scan_digit "3"%char IHd.
  - scan_digit "4"%char IHd.
  - scan_digit "5"%char IHd.
  - scan_digit "6"%char IHd.
  - scan_digit "7"%char IHd.
  - scan_digit "8"%char IHd.
  - scan_digit "9"%char IHd.
Qed.

(** [int(str(n))] is [n] for a numeral [d] without sign. *)
Lemma int_of_str_uint (d : Decimal.uint) :
  d <> Decimal.Nil ->
  (Decimal.nb_digits d <= int_max_str_digits)%nat ->
  int_of_str (NilEmpty.string_of_uint d) = Ok (Z.of_N (Pos.of_uint d))
  /\ int_of_str (String "-" (NilEmpty.string_of_uint d))
     = Ok (- Z.of_N (Pos.of_uint d)).
Proof.
  intros Hd Hn. destruct (int_scan_uint d) as (l & Hl & Hs).
  assert (Hlim : (int_max_str_digits <? 0 + Decimal.nb_digits d)%nat = false)
    by (apply Nat.ltb_ge; lia).
  split; unfold int_of_str.
  - rewrite strip_text_plain by apply string_of_uint_plain.
    rewrite int_sign_uint, Hl, (Hs false) by (left; exact Hd).
    rewrite Hlim. f_equal; lia.
  - rewrite strip_text_plain
      by (cbn [forallb]; rewrite string_of_uint_plain; reflexivity).
    cbn [int_sign]. change (Ascii.eqb "-" "-") with true. cbn iota.
    rewrite Hl, (Hs false) by (left; exact Hd).
    rewrite Hlim. f_equal; lia.
Qed.

Lemma int_of_str_of_int (n : Z) :
  (String.length (str_of_int n) <= int_max_str_digits)%nat ->
  int_of_str (str_of_int n) = Ok n.
Proof.
  unfold str_of_int. destruct n as [|p|p]; [reflexivity| |];
    cbn [Z.to_int NilZero.string_of_int]; unfold NilZero.string_of_uint;
    pose proof (DecimalPos.Unsigned.to_uint_nonnil p) as Hnil;
    pose proof (DecimalPos.Unsigned.of_to p) as Hval;
    destruct (Pos.to_uint p) as [|d|d|d|d|d|d|d|d|d|d] eqn:E;
    try congruence; rewrite <- E in *; intros Hlen.
  all: try (destruct (int_of_str_uint (Pos.to_uint p)) as [H _];
            [exact Hnil
            |rewrite <- string_of_uint_length; exact Hlen
            |rewrite H, Hval; reflexivity]).
  all: destruct (int_of_str_uint (Pos.to_uint p)) as [_ H];
    [exact Hnil
    |rewrite <- string_of_uint_length; simpl in Hlen; lia
    |rewrite H, Hval; reflexivity].
Qed.

(** ** One call of [validate_node] *)
Section ValidatorFacts.
Variable refine_url : string -> string -> result string.
Variable standardize_url : string -> result string.
Variable v : variant.

Local Abbreviation attempt_once := (attempt_once refine_url standardize_url).
Local Abbreviation attempts := (attempts refine_url standardize_url).
Local Abbreviation prologue := (prologue v).
Local Abbreviation validate_node := (validate_node refine_url standardize_url v).

Lemma reset_fields (n : node) :
  reset n = mkNode (node_type n) (name n) (url n) (-1) false "".
Proof. reflexivity. Qed.

Lemma reset_idem (n : node) : reset (reset n) = reset n.
Proof. reflexivity. Qed.

Lemma prologue_with_url (n : node) :
  url n <> "" -> prologue n = inr (reset n).
Proof.
  intros Hu. apply is_empty_false in Hu. unfold Engine.prologue.
  change (url (reset n)) with (url n). rewrite Hu.
  rewrite !andb_false_r. reflexivity.
Qed.

Lemma prologue_reset (n : node) : prologue (reset n) = prologue n.
Proof. reflexivity. Qed.

Lemma attempt_once_failed (a : attempt) (u base : string) (sc : Z) (n : node) :
  failed a = true ->
  exists d, attempt_once a u base sc n = (Continue, sc, set_link_validate_desc d n).
Proof.
  intros Hf. unfold Engine.attempt_once.
  destruct a as [msg|msg| |[r|] c]; try discriminate.
  - eexists; reflexivity.
  - destruct (refine_url u base); eexists; reflexivity.
  - destruct (refine_url u base); [|eexists; reflexivity].
    destruct c; eexists; reflexivity.
Qed.

Lemma attempts_skip_failed (world : nat -> attempt) (u base : string) (k : nat) :
  forall (left retries : nat) (sc : Z) (n : node),
    (forall j, (j < k)%nat -> failed (world (retries + j)%nat) = true) ->
    exists d,
      attempts world u base (k + left) retries sc n
      = attempts world u base left (retries + k) sc
          (match k with O => n | S _ => set_link_validate_desc d n end).
Proof.
  induction k as [|k IH]; intros left retries sc n Hf.
  - exists "". rewrite Nat.add_0_r. reflexivity.
  - assert (H0 : failed (world retries) = true).
    { specialize (Hf O). rewrite Nat.add_0_r in Hf. apply Hf. lia. }
    destruct (attempt_once_failed _ u base sc n H0) as [d Hd].
    destruct (IH left (S retries) sc (set_link_validate_desc d n)) as [d' Hd'].
    { intros j Hj. replace (S retries + j)%nat with (retries + S j)%nat by lia.
      apply Hf. lia. }
    simpl. rewrite Hd, Hd'.
    replace (S retries + k)%nat with (retries + S k)%nat by lia.
    destruct k; eexists; reflexivity.
Qed.


Lemma attempt_once_raises (msg : string) (u base refined : string) (sc : Z)
    (n : node) :
  refine_url u base = Ok refined ->
  attempt_once (NavRaises msg) u base sc n = (Continue, sc, on_exception msg n).
Proof. intros Hr. unfold Engine.attempt_once. rewrite Hr. reflexivity. Qed.

(** C10.  [validate_node] starts by overwriting the three result fields with
    [False], [-1] and the empty string: its outcome is the one it has on the
    node with these values, whatever the fields held before, and the loop of
    navigation attempts, when it is entered, finds the node with exactly these
    values (when the function returns before the loop the status is [-1]).
    Both variants, any URL helpers. *)
Theorem validate_node_overwrites_first (page_url : string)
    (world : nat -> attempt) (n : node) :
  let blank := mkNode (node_type n) (name n) (url n) (-1) false "" in
  validate_node page_url world n = validate_node page_url world blank
  /\ match prologue n with
     | inr n' => n' = blank
     | inl n' => link_status n' = -1
     end.
Proof.
  split; [reflexivity|].
  unfold Engine.prologue.
  repeat match goal with |- context [if ?b then _ else _] => destruct b end;
    reflexivity.
Qed.

(** C1, as the code has it.  A response whose status is not 200 ends the
    validation at once.  When the attempt numbered [k] returns such a
    response and the tab closes normally, and each of the [k] attempts before
    it ended without a response (the navigation raised an exception or
    returned no response), [validate_node] returns at that attempt, after
    [k + 1] attempts, and the node ends with [link_validate = False],
    [link_status = code] and [link_validate_desc = "HTTP <code>"]: the
    response is not retried.  Both variants. *)
Theorem non_200_response_is_final (page_url : string) (world : nat -> attempt)
    (n : node) (k : nat) (code : Z) (final refined : string) :
  url n <> "" ->
  refine_url (url n) (base_url_of page_url) = Ok refined ->
  code <> 200 ->
  (k < max_retries)%nat ->
  (forall j, (j < k)%nat -> failed (world j) = true) ->
  world k = NavReturns (Some (mkResponse code final)) CloseOk ->
  validate_node page_url world n
  = (Returned, S k,
     mkNode (node_type n) (name n) (url n) code false
       ("HTTP " ++ str_of_int code)).
Proof.
  intros Hu Hr Hc Hk Hfail Hw. unfold Engine.validate_node.
  rewrite (prologue_with_url n Hu).
  change (url (reset n)) with (url n).
  unfold max_retries in *. replace 5%nat with (k + S (4 - k))%nat by lia.
  destruct (attempts_skip_failed world (url n) (base_url_of page_url) k
              (S (4 - k)) O (-1) (reset n)) as [d Hd]; [exact Hfail|].
  rewrite Hd. cbn [Engine.attempts Nat.add]. rewrite Hw.
  unfold Engine.attempt_once. rewrite Hr. cbn [status response_url].
  apply Z.eqb_neq in Hc. rewrite Hc.
  destruct k; reflexivity.
Qed.

(** C5.  When the navigation raises at every attempt, [validate_node] makes
    exactly 5 attempts and leaves the node with [link_validate = False],
    [link_status = -1] and the description ["Exception: "] followed by the
    message of the fifth attempt.  Both variants. *)
Theorem always_failing_navigation_five_attempts (page_url : string)
    (world : nat -> attempt) (msg : nat -> string) (n : node)
    (refined : string) :
  url n <> "" ->
  refine_url (url n) (base_url_of page_url) = Ok refined ->
  (forall k, (k < 5)%nat -> world k = NavRaises (msg k)) ->
  validate_node page_url world n
  = (Returned, 5%nat,
     mkNode (node_type n) (name n) (url n) (-1) false
       ("Exception: " ++ msg 4%nat)).
Proof.
  intros Hu Hr Hw. unfold Engine.validate_node.
  rewrite (prologue_with_url n Hu).
  change (url (reset n)) with (url n). unfold max_retries.
  cbn [Engine.attempts].
  rewrite (Hw 0%nat), (attempt_once_raises _ _ _ _ _ _ Hr) by lia.
  rewrite (Hw 1%nat), (attempt_once_raises _ _ _ _ _ _ Hr) by lia.
  rewrite (Hw 2%nat), (attempt_once_raises _ _ _ _ _ _ Hr) by lia.
  rewrite (Hw 3%nat), (attempt_once_raises _ _ _ _ _ _ Hr) by lia.
  rewrite (Hw 4%nat), (attempt_once_raises _ _ _ _ _ _ Hr) by lia.
  reflexivity.
Qed.

(** A response 200 after [k] failed attempts: the verdict of that attempt. *)
Lemma response_200_verdict (page_url : string) (world : nat -> attempt)
    (n : node) (k : nat) (final refined requested reached : string) :
  url n <> "" ->
  refine_url (url n) (base_url_of page_url) = Ok refined ->
  standardize_url refined = Ok requested ->
  standardize_url final = Ok reached ->
  (k < 5)%nat ->
  (forall j, (j < k)%nat -> failed (world j) = true) ->
  world k = NavReturns (Some (mkResponse 200 final)) CloseOk ->
  validate_node page_url world n
  = (Returned, S k,
     mkNode (node_type n) (name n) (url n) 200 true
       (if String.eqb requested reached then ""
        else "Redirected to " ++ final)).
Proof.
  intros Hu Hr Hq Hf Hk Hfail Hw. unfold Engine.validate_node.
  rewrite (prologue_with_url n Hu).
  change (url (reset n)) with (url n).
  unfold max_retries. replace 5%nat with (k + S (4 - k))%nat by lia.
  destruct (attempts_skip_failed world (url n) (base_url_of page_url) k
              (S (4 - k)) O (-1) (reset n)) as [d Hd]; [exact Hfail|].
  rewrite Hd. cbn [Engine.attempts Nat.add]. rewrite Hw.
  unfold Engine.attempt_once. rewrite Hr. cbn [status response_url].
  change (200 =? 200) with true. cbv iota. rewrite Hq, Hf.
  destruct (String.eqb requested reached); destruct k; reflexivity.
Qed.

(** The loop, started on a node that is not validated, in a world where
    closing the tab never raises. *)
Lemma attempts_validated (world : nat -> attempt) (u base : string) :
  (forall k, closes_cleanly (world k) = true) ->
  forall (left retries : nat) (sc : Z) (n : node) (e : exit) (k : nat)
         (n' : node),
    link_validate n = false ->
    attempts world u base left retries sc n = (e, k, n') ->
    link_validate n' = true ->
    link_status n' = 200
    /\ (link_validate_desc n' = ""
        \/ exists final, link_validate_desc n' = "Redirected to " ++ final).
Proof.
  intros Hc. induction left as [|left IH]; intros retries sc n e k n' Hn Hrun Hv.
  - simpl in Hrun. injection Hrun as <- <- <-. simpl in Hv. congruence.
  - simpl in Hrun. specialize (Hc retries).
    unfold Engine.attempt_once in Hrun.
    destruct (world retries) as [msg|msg| |[r|] c].
    + eapply IH; [|exact Hrun|exact Hv]. exact Hn.
    + destruct (refine_url u base);
        (eapply IH; [|exact Hrun|exact Hv]); exact Hn.
    + destruct (refine_url u base).
      * injection Hrun as <- <- <-. congruence.
      * eapply IH; [|exact Hrun|exact Hv]. exact Hn.
    + destruct c; [|discriminate Hc].
      destruct (refine_url u base) as [refined|m];
        [|eapply IH; [|exact Hrun|exact Hv]; exact Hn].
      cbn [after_close] in Hrun.
      destruct (status r =? 200) eqn:E200.
      * destruct (standardize_url refined) as [a|m];
          [|eapply IH; [|exact Hrun|exact Hv]; exact Hn].
        destruct (standardize_url (response_url r)) as [b|m];
          [|eapply IH; [|exact Hrun|exact Hv]; exact Hn].
        injection Hrun as <- <- <-. apply Z.eqb_eq in E200.
        destruct (String.eqb a b); simpl; (split; [exact E200|]);
          [left; reflexivity|right; eauto].
      * injection Hrun as <- <- <-. simpl in Hv. congruence.
    + destruct c; [|discriminate Hc].
      destruct (refine_url u base);
        (eapply IH; [|exact Hrun|exact Hv]); exact Hn.
Qed.


(** C3, as the code has it.  After [validate_node], in a run where closing
    the tab never raises, [link_validate = True] means that [link_status] is
    200 and the description is empty or names the redirect target; the one
    other case is shop's L0 node without URL, which is validated with
    status [-1] and the description ["L0 has no link by design"]. *)
Theorem validated_node_fields (page_url : string) (world : nat -> attempt)
    (n : node) :
  (forall k, closes_cleanly (world k) = true) ->
  link_validate (validate_node page_url world n).2 = true ->
  (link_status (validate_node page_url world n).2 = 200
   /\ (link_validate_desc (validate_node page_url world n).2 = ""
       \/ exists final,
            link_validate_desc (validate_node page_url world n).2
            = "Redirected to " ++ final))
  \/ (v = Shop /\ node_type n = "L0" /\ url n = ""
      /\ link_status (validate_node page_url world n).2 = -1
      /\ link_validate_desc (validate_node page_url world n).2
         = "L0 has no link by design").
Proof.
  intros Hc. unfold Engine.validate_node, Engine.prologue.
  change (url (reset n)) with (url n).
  change (node_type (reset n)) with (node_type n).
  destruct (is_empty (url n)) eqn:Eu.
  - apply is_empty_true in Eu.
    destruct v; cbn [andb]; rewrite ?andb_true_r.
    + simpl. discriminate.
    + destruct (String.eqb (node_type n) "L0") eqn:E0.
      * intros _. right. apply String.eqb_eq in E0. simpl. auto.
      * destruct (String.eqb (node_type n) "L1"); simpl; discriminate.
  - rewrite !andb_false_r. cbv iota.
    change (url (reset n)) with (url n).
    destruct (attempts world (url n) (base_url_of page_url) max_retries O
                (-1) (reset n)) as [[e k] n'] eqn:Erun.
    intros Hv. left.
    eapply attempts_validated; [exact Hc| |exact Erun|exact Hv]. reflexivity.
Qed.

End ValidatorFacts.

(** C6, as the code has it.  gnb: when the attempt numbered [k] returns a
    response with status 200, [standardize_url] accepts the request URL and
    the final URL, the tab closes normally, and each of the [k] attempts
    before it ended without a response, [validate_node] returns at that
    attempt and the node ends with [link_validate = True] and
    [link_status = 200]; the description is ["Redirected to <finalUrl>"]
    when the standardized request and final URLs differ, and empty when they
    are equal.  It is empty in particular when the two URLs have the same
    components but for slashes that end the path. *)
Theorem gnb_status_200_redirect_detection (page_url : string)
    (world : nat -> attempt) (n : node) (k : nat)
    (final refined requested reached : string) :
  url n <> "" ->
  Utils.refine_url (url n) (base_url_of page_url) = Ok refined ->
  Utils.standardize_url refined = Ok requested ->
  Utils.standardize_url final = Ok reached ->
  (k < max_retries)%nat ->
  (forall j, (j < k)%nat -> failed (world j) = true) ->
  world k = NavReturns (Some (mkResponse 200 final)) CloseOk ->
  gnb_validate_node page_url world n
  = (Returned, S k,
     mkNode (node_type n) (name n) (url n) 200 true
       (if String.eqb requested reached then ""
        else "Redirected to " ++ final))
  /\ (forall pr pf : UrlLib.ParseResult,
        UrlLib.urlparse refined = Ok pr ->
        UrlLib.urlparse final = Ok pf ->
        UrlLib.scheme pr = UrlLib.scheme pf ->
        UrlLib.netloc pr = UrlLib.netloc pf ->
        rstrip Utils.is_slash (UrlLib.path pr)
        = rstrip Utils.is_slash (UrlLib.path pf) ->
        UrlLib.params pr = UrlLib.params pf ->
        UrlLib.query pr = UrlLib.query pf ->
        UrlLib.fragment pr = UrlLib.fragment pf ->
        link_validate_desc (gnb_validate_node page_url world n).2 = "").
Proof.
  intros Hu Hr Hq Hf Hk Hfail Hw.
  assert (Hrun := response_200_verdict Utils.refine_url Utils.standardize_url
                    Gnb page_url world n k final refined requested reached
                    Hu Hr Hq Hf Hk Hfail Hw).
  split; [exact Hrun|].
  intros pr pf Hpr Hpf Hs Hn Hp Hpa Hqu Hfr.
  unfold gnb_validate_node. rewrite Hrun. cbn [snd link_validate_desc].
  unfold Utils.standardize_url in Hq, Hf. rewrite Hpr in Hq. rewrite Hpf in Hf.
  cbn in Hq, Hf. injection Hq as <-. injection Hf as <-.
  rewrite Hs, Hn, Hp, Hpa, Hqu, Hfr, String.eqb_refl. reflexivity.
Qed.

(** C8.  [standardize_url] is not idempotent: on ["http://h/a/;/"] it
    returns ["http://h/a/;"], and on that it returns ["http://h/a"]. *)
Theorem standardize_url_twice_differs :
  Utils.standardize_url "http://h/a/;/" = Ok "http://h/a/;"
  /\ Utils.standardize_url "http://h/a/;" = Ok "http://h/a"
  /\ (Utils.standardize_url "http://h/a/;/" ≫= Utils.standardize_url)
     <> Utils.standardize_url "http://h/a/;/".
Proof. repeat split; try reflexivity. vm_compute. discriminate. Qed.

(** C7, as the code has it.  The number of workers is
    [int(os.getenv("LINKVALIDATE_COUNT", 2))].  When the variable is not set
    there are two workers.  When it is set to the decimal spelling [str(n)]
    of an integer [n] (of at most 4300 characters, the limit of [int]), there
    are [n] workers, none for zero or a negative number; more generally,
    when [int] accepts the text and gives [n], there are [n] workers.  When
    [int] raises [ValueError], as it does on every text with an ASCII
    letter, the exception leaves [check_link_validity] before a queue or a
    worker exists.  Both variants. *)
Theorem concurrency_from_environment (v : variant) (h : store)
    (nodes : list tree) :
  (check_link_validity_start v None h nodes = Ok (start v 2 h nodes)
   /\ tasks (start v 2 h nodes) = [Waiting; Waiting])
  /\ (forall n : Z,
        (String.length (str_of_int n) <= int_max_str_digits)%nat ->
        check_link_validity_start v (Some (str_of_int n)) h nodes
        = Ok (start v n h nodes)
        /\ tasks (start v n h nodes) = replicate (Z.to_nat n) Waiting)
  /\ (forall (s : string) (n : Z),
        int_of_str s = Ok n ->
        check_link_validity_start v (Some s) h nodes = Ok (start v n h nodes)
        /\ tasks (start v n h nodes) = replicate (Z.to_nat n) Waiting)
  /\ (forall s msg : string,
        int_of_str s = Raise msg ->
        check_link_validity_start v (Some s) h nodes = Raise msg)
  /\ (forall s : string,
        has_letter s = true ->
        exists msg, check_link_validity_start v (Some s) h nodes = Raise msg).
Proof.
  unfold check_link_validity_start, max_concurrent_of.
  split; [split; reflexivity|].
  split.
  { intros n Hn. rewrite (int_of_str_of_int n Hn). split; reflexivity. }
  split.
  { intros s n Hs. rewrite Hs. split; reflexivity. }
  split.
  { intros s msg Hs. rewrite Hs. reflexivity. }
  intros s Hs. destruct (int_of_str_letter s Hs) as [msg Hm].
  exists msg. rewrite Hm. reflexivity.
Qed.

(** ** The queue and the workers *)

Lemma tree_ind_forall (P : tree -> Prop) :
  (forall r children, Forall P children -> P (Tree r children)) ->
  forall t, P t.
Proof.
  intros step. fix IH 1. intros [r children]. apply step.
  induction children as [|c cs IHcs]; constructor; [apply IH|exact IHcs].
Qed.

Lemma flatten_has_link (v : variant) (h : store) (t : tree) (r : ref) :
  r ∈ flatten_with_link v h t -> has_link v (h r) = true.
Proof.
  induction t as [r0 children IH] using tree_ind_forall. simpl.
  rewrite elem_of_app. intros [Hr|Hr].
  - destruct (has_link v (h r0)) eqn:E.
    + apply list_elem_of_singleton in Hr. subst. exact E.
    + inversion Hr.
  - induction IH as [|c cs Hc _ IHcs]; simpl in Hr; [inversion Hr|].
    apply elem_of_app in Hr. destruct Hr as [Hr|Hr]; auto.
Qed.

Lemma all_nodes_have_link (v : variant) (h : store) (nodes : list tree)
    (r : ref) :
  r ∈ all_nodes_of v h nodes -> has_link v (h r) = true.
Proof.
  unfold all_nodes_of. induction nodes as [|t ts IH]; simpl; [inversion 1|].
  rewrite elem_of_app. intros [Hr|Hr]; [eapply flatten_has_link, Hr|auto].
Qed.

Lemma flatten_sublist (v : variant) (h : store) (t : tree) :
  flatten_with_link v h t `sublist_of` tree_refs t.
Proof.
  induction t as [r children IH] using tree_ind_forall. simpl.
  assert (Hcs : flat_map (flatten_with_link v h) children
                `sublist_of` flat_map tree_refs children).
  { induction IH as [|c cs Hc _ IHcs]; simpl; [constructor|].
    apply sublist_app; assumption. }
  destruct (has_link v (h r)); simpl.
  - apply sublist_skip, Hcs.
  - apply sublist_cons, Hcs.
Qed.

Lemma all_nodes_NoDup (v : variant) (h : store) (nodes : list tree) :
  NoDup (flat_map tree_refs nodes) -> NoDup (all_nodes_of v h nodes).
Proof.
  intros Hnd. eapply sublist_NoDup; [exact Hnd|clear Hnd]. unfold all_nodes_of.
  induction nodes as [|t ts IH]; simpl; [constructor|].
  apply sublist_app; [apply flatten_sublist|exact IH].
Qed.

Lemma imap_it_node (f : nat -> ref -> item) (l : list ref) :
  (forall i r, it_node (f i r) = r) -> it_node <$> imap f l = l.
Proof.
  revert f. induction l as [|r l IH]; intros f Hf; simpl; [reflexivity|].
  rewrite Hf. f_equal. apply IH. intros i r'. apply Hf.
Qed.

Lemma enqueue_nodes (l : list ref) : it_node <$> enqueue l = l.
Proof. apply imap_it_node. reflexivity. Qed.

Lemma in_flight_replicate_waiting (n : nat) :
  in_flight (replicate n Waiting) = [].
Proof. induction n as [|n IH]; simpl; [reflexivity|exact IH]. Qed.

(** The items in validation, around worker [w]. *)
Lemma in_flight_split (ts : list task) (w : nat) (t : task) :
  ts !! w = Some t ->
  in_flight ts
  = (in_flight (firstn w ts) ++ option_list (holding t)
       ++ in_flight (skipn (S w) ts))%list.
Proof.
  intros Hw. rewrite <- (take_drop_middle ts w t Hw) at 1.
  unfold in_flight. rewrite omap_app. simpl.
  destruct (holding t); reflexivity.
Qed.

Lemma in_flight_insert (ts : list task) (w : nat) (t t' : task) :
  ts !! w = Some t ->
  in_flight (<[w := t']> ts)
  = (in_flight (firstn w ts) ++ option_list (holding t')
       ++ in_flight (skipn (S w) ts))%list.
Proof.
  intros Hw. rewrite insert_take_drop by (eapply lookup_lt_Some, Hw).
  unfold in_flight. rewrite omap_app. simpl.
  destruct (holding t'); reflexivity.
Qed.

Lemma in_flight_same (ts : list task) (w : nat) (t t' : task) :
  ts !! w = Some t -> holding t' = holding t ->
  in_flight (<[w := t']> ts) = in_flight ts.
Proof.
  intros Hw Hh.
  rewrite (in_flight_insert ts w t t' Hw), (in_flight_split ts w t Hw), Hh.
  reflexivity.
Qed.

Lemma in_flight_take (ts : list task) (w : nat) (t : task) (it : item) :
  ts !! w = Some t -> holding t = None ->
  forall t', holding t' = Some it ->
  in_flight (<[w := t']> ts) ≡ₚ it :: in_flight ts.
Proof.
  intros Hw Hh t' Hh'.
  rewrite (in_flight_insert ts w t t' Hw), (in_flight_split ts w t Hw), Hh, Hh'.
  simpl. symmetry. apply Permutation_middle.
Qed.

Lemma in_flight_release (ts : list task) (w : nat) (t : task) (it : item) :
  ts !! w = Some t -> holding t = Some it ->
  forall t', holding t' = None ->
  it :: in_flight (<[w := t']> ts) ≡ₚ in_flight ts.
Proof.
  intros Hw Hh t' Hh'.
  rewrite (in_flight_insert ts w t t' Hw), (in_flight_split ts w t Hw), Hh, Hh'.
  simpl. apply Permutation_middle.
Qed.

Lemma in_flight_lookup (ts : list task) (w : nat) (t : task) (it : item) :
  ts !! w = Some t -> holding t = Some it -> it ∈ in_flight ts.
Proof.
  intros Hw Hh. rewrite (in_flight_split ts w t Hw), Hh.
  rewrite !elem_of_app. right. left. simpl. apply list_elem_of_here.
Qed.

(** Two workers that hold items of the same node are one worker, when the
    nodes in validation are distinct. *)
Lemma in_flight_distinct (ts : list task) :
  NoDup (it_node <$> in_flight ts) ->
  forall (w1 w2 : nat) (t1 t2 : task) (it1 it2 : item),
    ts !! w1 = Some t1 -> holding t1 = Some it1 ->
    ts !! w2 = Some t2 -> holding t2 = Some it2 ->
    it_node it1 = it_node it2 -> w1 = w2.
Proof.
  induction ts as [|t ts IH]; intros Hnd w1 w2 t1 t2 it1 it2 H1 Hh1 H2 Hh2 Heq.
  - discriminate H1.
  - assert (Htail : NoDup (it_node <$> in_flight ts)).
    { unfold in_flight in *. simpl in Hnd. destruct (holding t); [|exact Hnd].
      rewrite fmap_cons in Hnd. apply list.NoDup_cons in Hnd. apply Hnd. }
    assert (Hfresh : forall it w' t' it',
               holding t = Some it -> ts !! w' = Some t' ->
               holding t' = Some it' -> it_node it <> it_node it').
    { intros it w' t' it' Hh Hw' Hh' Hn. unfold in_flight in Hnd. simpl in Hnd.
      rewrite Hh, fmap_cons in Hnd. apply list.NoDup_cons in Hnd.
      destruct Hnd as [Hnotin _]. apply Hnotin. rewrite Hn.
      apply list_elem_of_fmap_2. eapply in_flight_lookup; eassumption. }
    destruct w1 as [|w1], w2 as [|w2]; simpl in H1, H2.
    + reflexivity.
    + injection H1 as ->. exfalso. eapply Hfresh; eassumption.
    + injection H2 as ->. exfalso. symmetry in Heq. eapply Hfresh; eassumption.
    + f_equal. eapply IH; eassumption.
Qed.

Section PoolFacts.
Variable refine_url : string -> string -> result string.
Variable standardize_url : string -> result string.
Variable v : variant.
Variable page_url : string.
Variable world : ref -> nat -> attempt.

Local Abbreviation worker_step :=
  (worker_step refine_url standardize_url v page_url world).
Local Abbreviation step := (step refine_url standardize_url v page_url world).
Local Abbreviation run := (run refine_url standardize_url v page_url world).

Lemma run_rtc (sched : list nat) :
  forall p p', run sched p = Some p' -> rtc step p p'.
Proof.
  induction sched as [|w sched IH]; intros p p' Hrun; simpl in Hrun.
  - injection Hrun as <-. apply rtc_refl.
  - destruct (worker_step w p) as [q|] eqn:Hw; [|discriminate].
    eapply rtc_l; [exists w; exact Hw|apply IH, Hrun].
Qed.

Lemma start_inv (max_concurrent : Z) (h : store) (nodes : list tree) :
  pool_inv (enqueue (all_nodes_of v h nodes)) h
    (start v max_concurrent h nodes).
Proof.
  unfold start. constructor; simpl.
  - reflexivity.
  - rewrite in_flight_replicate_waiting. reflexivity.
  - rewrite in_flight_replicate_waiting. unfold enqueue.
    rewrite length_imap. reflexivity.
  - reflexivity.
Qed.

Lemma inv_target (all : list item) (h0 : store) (p : pool) (it : item) :
  pool_inv all h0 p ->
  it ∈ (in_flight (tasks p) ++ queue p)%list ->
  it_node it ∈ it_node <$> all.
Proof.
  intros Hinv Hit. apply list_elem_of_fmap_2.
  eapply elem_of_submseteq; [exact Hit|apply Hinv].
Qed.

Lemma inv_frame_insert (all : list item) (h0 : store) (p : pool) (it : item)
    (n' : node) :
  pool_inv all h0 p ->
  it ∈ (in_flight (tasks p) ++ queue p)%list ->
  forall r, r ∉ it_node <$> all -> <[it_node it := n']> (heap p) r = h0 r.
Proof.
  intros Hinv Hit r Hr. rewrite fn_lookup_insert_ne.
  - apply Hinv, Hr.
  - intros <-. apply Hr. eapply inv_target; eassumption.
Qed.

(** A worker that leaves [validate_node]: its item is no longer in
    validation and is marked done. *)
Lemma inv_release (all : list item) (h0 : store) (p : pool) (w : nat)
    (it : item) (u : string) (k : nat) (sc : Z) (t' : task) (n' : node) :
  pool_inv all h0 p ->
  tasks p !! w = Some (Validating it u k sc) ->
  holding t' = None ->
  pool_inv all h0
    (mkPool (queue p) (pred (unfinished p)) (<[w := t']> (tasks p))
       (<[it_node it := n']> (heap p)) (handed p)).
Proof.
  intros Hinv Hw Ht'.
  pose proof (in_flight_release (tasks p) w _ it Hw eq_refl t' Ht') as Hperm.
  constructor; simpl.
  - apply Hinv.
  - transitivity (in_flight (tasks p) ++ queue p)%list; [|apply Hinv].
    apply submseteq_app; [|reflexivity].
    rewrite <- Hperm. apply submseteq_cons. reflexivity.
  - rewrite (inv_count _ _ _ Hinv).
    apply Permutation_length in Hperm. simpl in Hperm. lia.
  - apply (inv_frame_insert all h0 p it n' Hinv).
    apply elem_of_app. left. eapply in_flight_lookup; [exact Hw|reflexivity].
Qed.

Lemma step_inv (all : list item) (h0 : store) (p p' : pool) (w : nat) :
  pool_inv all h0 p -> worker_step w p = Some p' -> pool_inv all h0 p'.
Proof.
  intros Hinv Hstep. unfold Engine.worker_step in Hstep.
  destruct (tasks p !! w) as [[|it u k sc|]|] eqn:Hw; try discriminate.
  - destruct (queue p) as [|it q] eqn:Hq; [discriminate|].
    assert (Hit : it ∈ (in_flight (tasks p) ++ queue p)%list).
    { rewrite Hq. apply elem_of_app. right. apply list_elem_of_here. }
    assert (Hlog : ((handed p ++ [(w, it)]).*2 ++ q)%list = all).
    { rewrite fmap_app. simpl. rewrite <- app_assoc. simpl.
      rewrite <- Hq. apply Hinv. }
    destruct (prologue v (heap p (it_node it))) as [n'|n'];
      injection Hstep as <-; constructor; simpl.
    + exact Hlog.
    + transitivity (in_flight (tasks p) ++ queue p)%list; [|apply Hinv].
      rewrite Hq. apply submseteq_skips_l, submseteq_cons. reflexivity.
    + rewrite (inv_count _ _ _ Hinv), Hq. simpl. lia.
    + apply (inv_frame_insert all h0 p it n' Hinv Hit).
    + exact Hlog.
    + rewrite (in_flight_take (tasks p) w Waiting it Hw eq_refl
                 (Validating it (url n') 0 (-1)) eq_refl).
      rewrite <- (inv_flight _ _ _ Hinv), Hq. simpl.
      rewrite Permutation_middle. reflexivity.
    + rewrite (inv_count _ _ _ Hinv), Hq.
      pose proof (in_flight_take (tasks p) w Waiting it Hw eq_refl
                    (Validating it (url n') 0 (-1)) eq_refl) as Hperm.
      apply Permutation_length in Hperm. simpl in *. lia.
    + apply (inv_frame_insert all h0 p it n' Hinv Hit).
  - destruct (attempt_once refine_url standardize_url
                (world (it_node it) k) u (base_url_of page_url) sc
                (heap p (it_node it))) as [[f sc'] n'].
    destruct f.
    + destruct (S k <? max_retries)%nat; injection Hstep as <-.
      * constructor; simpl.
        -- apply Hinv.
        -- rewrite (in_flight_same (tasks p) w _ _ Hw); [apply Hinv|reflexivity].
        -- rewrite (in_flight_same (tasks p) w _ _ Hw); [apply Hinv|reflexivity].
        -- apply (inv_frame_insert all h0 p it n' Hinv).
           apply elem_of_app. left.
           eapply in_flight_lookup; [exact Hw|reflexivity].
      * eapply inv_release; [exact Hinv|exact Hw|reflexivity].
    + injection Hstep as <-.
      eapply inv_release; [exact Hinv|exact Hw|reflexivity].
    + injection Hstep as <-.
      eapply inv_release; [exact Hinv|exact Hw|reflexivity].
Qed.

Lemma reachable_inv (max_concurrent : Z) (h : store) (nodes : list tree)
    (p : pool) :
  rtc step (start v max_concurrent h nodes) p ->
  pool_inv (enqueue (all_nodes_of v h nodes)) h p.
Proof.
  revert p. apply rtc_ind_r.
  - apply start_inv.
  - intros p q _ [w Hw] IH. eapply step_inv; eassumption.
Qed.

(** A worker left alone inside [validate_node] finishes the loop as
    [attempts] computes it. *)
Lemma solo_attempts (w : nat) (it : item) (u : string) :
  forall (left : nat) (p : pool) (k : nat) (sc : Z),
    tasks p !! w = Some (Validating it u k sc) ->
    (k + S left = max_retries)%nat ->
    exists (j : nat) (p' : pool),
      run (replicate j w) p = Some p'
      /\ heap p' (it_node it)
         = (attempts refine_url standardize_url (world (it_node it)) u
              (base_url_of page_url) (S left) k sc (heap p (it_node it))).2
      /\ holding (default Waiting (tasks p' !! w)) = None
      /\ unfinished p' = pred (unfinished p)
      /\ queue p' = queue p.
Proof.
  induction left as [|left IH]; intros p k sc Hw Hk;
    pose proof (lookup_lt_Some _ _ _ Hw) as Hlt;
    cbn [Engine.attempts];
    destruct (attempt_once refine_url standardize_url (world (it_node it) k)
                u (base_url_of page_url) sc (heap p (it_node it)))
      as [[f sc'] n1] eqn:Ha.
  - exists 1%nat. cbn [replicate Engine.run]. unfold Engine.worker_step.
    rewrite Hw, Ha.
    replace (S k <? max_retries)%nat with false
      by (symmetry; apply Nat.ltb_ge; lia).
    destruct f; eexists; (split; [reflexivity|]); cbn [heap tasks unfinished
      queue snd]; rewrite fn_lookup_insert, list_lookup_insert_eq by exact Hlt;
      auto.
  - destruct f.
    + set (p1 := mkPool (queue p) (unfinished p)
                   (<[w := Validating it u (S k) sc']> (tasks p))
                   (<[it_node it := n1]> (heap p)) (handed p)).
      destruct (IH p1 (S k) sc') as (j & p' & Hrun & Hheap & Hhold & Hunf & Hq).
      { simpl. apply list_lookup_insert_eq, Hlt. }
      { lia. }
      exists (S j), p'. cbn [replicate Engine.run]. unfold Engine.worker_step.
      rewrite Hw, Ha.
      replace (S k <? max_retries)%nat with true
        by (symmetry; apply Nat.ltb_lt; lia).
      fold p1. split; [exact Hrun|].
      simpl in Hheap. rewrite fn_lookup_insert in Hheap. auto.
    + exists 1%nat. cbn [replicate Engine.run]. unfold Engine.worker_step.
      rewrite Hw, Ha. eexists. split; [reflexivity|].
      cbn [heap tasks unfinished queue snd].
      rewrite fn_lookup_insert, list_lookup_insert_eq by exact Hlt. auto.
    + exists 1%nat. cbn [replicate Engine.run]. unfold Engine.worker_step.
      rewrite Hw, Ha. eexists. split; [reflexivity|].
      cbn [heap tasks unfinished queue snd].
      rewrite fn_lookup_insert, list_lookup_insert_eq by exact Hlt. auto.
Qed.

(** A waiting worker left alone takes the first item of the queue, leaves
    on its node what [validate_node] computes, and marks the item done. *)
Lemma solo_worker_validates (w : nat) (p : pool) (it : item) (q : list item) :
  tasks p !! w = Some Waiting ->
  queue p = it :: q ->
  exists (j : nat) (p' : pool),
    run (replicate j w) p = Some p'
    /\ heap p' (it_node it)
       = (validate_node refine_url standardize_url v page_url
            (world (it_node it)) (heap p (it_node it))).2
    /\ unfinished p' = pred (unfinished p)
    /\ queue p' = q.
Proof.
  intros Hw Hq. pose proof (lookup_lt_Some _ _ _ Hw) as Hlt.
  unfold Engine.validate_node.
  destruct (prologue v (heap p (it_node it))) as [n'|n'] eqn:Hp.
  - exists 1%nat. cbn [replicate Engine.run]. unfold Engine.worker_step.
    rewrite Hw, Hq, Hp. eexists. split; [reflexivity|].
    cbn [heap unfinished queue snd]. rewrite fn_lookup_insert. auto.
  - set (p1 := mkPool q (unfinished p)
                 (<[w := Validating it (url n') 0 (-1)]> (tasks p))
                 (<[it_node it := n']> (heap p))
                 (handed p ++ [(w, it)])%list).
    destruct (solo_attempts w it (url n') 4 p1 0%nat (-1))
      as (j & p' & Hrun & Hheap & _ & Hunf & Hq').
    { simpl. apply list_lookup_insert_eq, Hlt. }
    { reflexivity. }
    exists (S j), p'. cbn [replicate Engine.run]. unfold Engine.worker_step.
    rewrite Hw, Hq, Hp. fold p1. split; [exact Hrun|].
    simpl in Hheap. rewrite fn_lookup_insert in Hheap. auto.
Qed.

Lemma no_link_not_enqueued (h : store) (nodes : list tree) (r : ref) :
  url (h r) = "" ->
  (v = Shop -> node_type (h r) <> "L0" /\ node_type (h r) <> "L1") ->
  r ∉ all_nodes_of v h nodes.
Proof.
  intros Hu Ht Hr. apply all_nodes_have_link in Hr.
  unfold has_link in Hr. rewrite Hu in Hr. destruct v; simpl in Hr.
  - discriminate.
  - destruct (Ht eq_refl) as [H0 H1].
    apply String.eqb_neq in H0, H1. rewrite H0, H1 in Hr. discriminate.
Qed.

(** C2, as the code has it.  A node whose [url] is the empty string (no
    trimming is applied) and, in shop, whose type is neither L0 nor L1, is
    not put on the queue, is never handed to a worker, and keeps its fields
    in every state of the run. *)
Theorem node_without_link_untouched (max_concurrent : Z) (h : store)
    (nodes : list tree) (p : pool) (r : ref) :
  url (h r) = "" ->
  (v = Shop -> node_type (h r) <> "L0" /\ node_type (h r) <> "L1") ->
  rtc step (start v max_concurrent h nodes) p ->
  (r ∉ it_node <$> queue (start v max_concurrent h nodes))
  /\ (r ∉ it_node <$> (handed p).*2)
  /\ heap p r = h r.
Proof.
  intros Hu Ht Hrtc.
  pose proof (no_link_not_enqueued h nodes r Hu Ht) as Hr.
  pose proof (reachable_inv max_concurrent h nodes p Hrtc) as Hinv.
  rewrite <- (enqueue_nodes (all_nodes_of v h nodes)) in Hr.
  split; [exact Hr|]. split.
  - intros Hin. apply Hr. rewrite <- (inv_handed _ _ _ Hinv), fmap_app.
    apply elem_of_app. left. exact Hin.
  - apply Hinv, Hr.
Qed.

Lemma ended_stays (p p' : pool) (w : nat) :
  step p p' -> tasks p !! w = Some Ended -> tasks p' !! w = Some Ended.
Proof.
  intros [w0 Hs] Hw. unfold Engine.worker_step in Hs.
  destruct (decide (w0 = w)) as [->|Hne].
  { rewrite Hw in Hs. discriminate Hs. }
  destruct (tasks p !! w0) as [[|it u k sc|]|]; try discriminate Hs.
  - destruct (queue p) as [|it q]; [discriminate Hs|].
    destruct (Engine.prologue v (heap p (it_node it)));
      injection Hs as <-; cbn [tasks]; [exact Hw|].
    rewrite list_lookup_insert_ne by exact Hne. exact Hw.
  - destruct (attempt_once _ _ _ _ _) as [[[| |] sc'] n'];
      [destruct (S k <? max_retries)%nat| |];
      injection Hs as <-; cbn [tasks];
      rewrite list_lookup_insert_ne by exact Hne; exact Hw.
Qed.

Lemma ended_forever (p q : pool) (w : nat) :
  rtc step p q -> tasks p !! w = Some Ended -> tasks q !! w = Some Ended.
Proof.
  induction 1 as [|x y z Hxy _ IH]; [trivial|].
  intros Hw. apply IH, (ended_stays x y w Hxy Hw).
Qed.

Lemma all_ended_blocked (p : pool) :
  (forall w t, tasks p !! w = Some t -> t = Ended) ->
  forall w, worker_step w p = None.
Proof.
  intros H w. unfold Engine.worker_step.
  destruct (tasks p !! w) as [t|] eqn:E; [|reflexivity].
  rewrite (H w t E). reflexivity.
Qed.

(** C4, as the code has it.  When an exception leaves [validate_node], the
    worker marks the item done ([finally: queue.task_done()]) and its task
    ends: nothing is written on the node, the queue and the tasks of the
    other workers are as before, and in every later state of the run this
    worker is over and takes no further item.  When the tasks of all the
    other workers are over as well, the pool makes no further step: with
    another item unfinished, [queue.join()] does not return. *)
Theorem escaping_exception_ends_worker (p : pool) (w : nat) (it : item)
    (u refined : string) (k : nat) (sc : Z) :
  tasks p !! w = Some (Validating it u k sc) ->
  refine_url u (base_url_of page_url) = Ok refined ->
  world (it_node it) k = NavAborts ->
  exists p',
    worker_step w p = Some p'
    /\ tasks p' = <[w := Ended]> (tasks p)
    /\ unfinished p' = pred (unfinished p)
    /\ queue p' = queue p
    /\ (forall r, heap p' r = heap p r)
    /\ (forall q, rtc step p' q ->
          tasks q !! w = Some Ended /\ worker_step w q = None)
    /\ ((forall w' t, w' <> w -> tasks p !! w' = Some t -> t = Ended) ->
        forall q, rtc step p' q ->
          q = p' /\ ((1 < unfinished p)%nat -> joined q = false)).
Proof.
  intros Hw Hr Ha.
  assert (Hlt : (w < length (tasks p))%nat) by (eapply lookup_lt_Some, Hw).
  exists (mkPool (queue p) (pred (unfinished p)) (<[w := Ended]> (tasks p))
            (<[it_node it := heap p (it_node it)]> (heap p)) (handed p)).
  split.
  { unfold Engine.worker_step. rewrite Hw, Ha.
    unfold attempt_once. rewrite Hr. reflexivity. }
  cbn [tasks unfinished queue heap].
  do 3 (split; [reflexivity|]).
  split.
  { intros r. destruct (decide (it_node it = r)) as [<-|Hne].
    - apply fn_lookup_insert.
    - apply fn_lookup_insert_ne, Hne. }
  split.
  { intros q Hq.
    assert (He : tasks q !! w = Some Ended).
    { apply (ended_forever _ q w Hq). cbn [tasks].
      apply list_lookup_insert_eq, Hlt. }
    split; [exact He|]. unfold Engine.worker_step. rewrite He. reflexivity. }
  intros Hothers q Hq.
  assert (Hq' : q = mkPool (queue p) (pred (unfinished p))
                      (<[w := Ended]> (tasks p))
                      (<[it_node it := heap p (it_node it)]> (heap p))
                      (handed p)).
  { apply rtc_inv in Hq as [Hq|(y & [w0 Hs] & _)]; [symmetry; exact Hq|].
    rewrite all_ended_blocked in Hs; [discriminate Hs|].
    cbn [tasks]. intros w' t Ht.
    destruct (decide (w' = w)) as [->|Hne].
    - rewrite list_lookup_insert_eq in Ht by exact Hlt. congruence.
    - rewrite list_lookup_insert_ne in Ht by (intros E; apply Hne; auto).
      exact (Hothers w' t Hne Ht). }
  split; [exact Hq'|]. intros Hu. rewrite Hq'. unfold joined.
  cbn [unfinished]. apply Nat.eqb_neq. lia.
Qed.

(** C9.  In every state of a run over a forest of distinct node objects,
    with any number of workers: the items handed out so far, in order, and
    the items still queued make up the queue as it was filled, so that no
    node is handed out twice and, once [queue.join()] can return, every
    item has been handed out exactly once; and two workers are never inside
    [validate_node] on the same node. *)
Theorem each_node_validated_by_one_worker (max_concurrent : Z) (h : store)
    (nodes : list tree) (p : pool) :
  NoDup (flat_map tree_refs nodes) ->
  rtc step (start v max_concurrent h nodes) p ->
  ((handed p).*2 ++ queue p)%list = enqueue (all_nodes_of v h nodes)
  /\ NoDup (it_node <$> (handed p).*2)
  /\ (joined p = true -> (handed p).*2 = enqueue (all_nodes_of v h nodes))
  /\ (forall w1 w2 it1 u1 k1 s1 it2 u2 k2 s2,
        tasks p !! w1 = Some (Validating it1 u1 k1 s1) ->
        tasks p !! w2 = Some (Validating it2 u2 k2 s2) ->
        it_node it1 = it_node it2 -> w1 = w2).
Proof.
  intros Hnd Hrtc.
  pose proof (reachable_inv max_concurrent h nodes p Hrtc) as Hinv.
  pose proof (all_nodes_NoDup v h nodes Hnd) as Hall.
  rewrite <- (enqueue_nodes (all_nodes_of v h nodes)) in Hall.
  split; [apply Hinv|]. split; [|split].
  - rewrite <- (inv_handed _ _ _ Hinv), fmap_app in Hall.
    apply list.NoDup_app in Hall. apply Hall.
  - intros Hj. apply Nat.eqb_eq in Hj.
    rewrite (inv_count _ _ _ Hinv) in Hj.
    destruct (queue p) as [|it q] eqn:Hq; [|simpl in Hj; lia].
    rewrite <- (inv_handed _ _ _ Hinv), Hq. symmetry. apply app_nil_r.
  - intros w1 w2 it1 u1 k1 s1 it2 u2 k2 s2 H1 H2 Heq.
    eapply (in_flight_distinct (tasks p));
      [|exact H1|reflexivity|exact H2|reflexivity|exact Heq].
    destruct (submseteq_Permutation _ _ (inv_flight _ _ _ Hinv)) as [rest Hp].
    rewrite Hp, <- !app_assoc, fmap_app in Hall.
    apply list.NoDup_app in Hall. apply Hall.
Qed.

End PoolFacts.

(** ** The theorems at concrete nodes, browsers and trees *)

(** C1 fails as stated: a browser that always answers 404 is asked once,
    not five times. *)
Lemma always_404_is_asked_once :
  (gnb_validate_node Examples.page
     (Examples.responds 404 "https://other.com/page")
     (Examples.link "L1" "//other.com/page")).1.2 = 1%nat
  /\ (gnb_validate_node Examples.page
        (Examples.responds 404 "https://other.com/page")
        (Examples.link "L1" "//other.com/page")).1.2 <> 5%nat.
Proof. split; [reflexivity|vm_compute; discriminate]. Qed.

Lemma non_200_response_is_final_witness :
  gnb_validate_node Examples.page
    (Examples.answers_third 404 "https://other.com/page")
    (Examples.link "L1" "//other.com/page")
  = (Returned, 3%nat,
     mkNode "L1" "menu" "//other.com/page" 404 false "HTTP 404").
Proof.
  apply (non_200_response_is_final Utils.refine_url Utils.standardize_url Gnb
           Examples.page (Examples.answers_third 404 "https://other.com/page")
           (Examples.link "L1" "//other.com/page") 2 404
           "https://other.com/page" "https://other.com/page").
  - discriminate.
  - vm_compute. reflexivity.
  - lia.
  - unfold max_retries. lia.
  - intros [|[|j]] Hj; [reflexivity|reflexivity|lia].
  - reflexivity.
Defined.

Lemma always_failing_navigation_five_attempts_witness :
  gnb_validate_node Examples.page Examples.times_out (Examples.link "L1" "/a")
  = (Returned, 5%nat,
     mkNode "L1" "menu" "/a" (-1) false
       "Exception: Timeout 20000ms exceeded.").
Proof.
  apply (always_failing_navigation_five_attempts Utils.refine_url
           Utils.standardize_url Gnb Examples.page Examples.times_out
           Examples.timeout_message (Examples.link "L1" "/a")
           "https://example.com/a").
  - discriminate.
  - reflexivity.
  - intros k _. reflexivity.
Defined.

(** C3 fails as stated: after a redirect the node is validated and its
    description is not empty. *)
Lemma redirected_node_has_description :
  ~ (link_validate
       (gnb_validate_node Examples.page
          (Examples.responds 200 "https://example.com/b")
          (Examples.link "L1" "/a")).2 = true ->
     link_status
       (gnb_validate_node Examples.page
          (Examples.responds 200 "https://example.com/b")
          (Examples.link "L1" "/a")).2 = 200
     /\ link_validate_desc
          (gnb_validate_node Examples.page
             (Examples.responds 200 "https://example.com/b")
             (Examples.link "L1" "/a")).2 = "").
Proof. vm_compute. intros H. destruct (H eq_refl) as [_ Hd]. discriminate Hd. Qed.

Lemma validated_node_fields_witness :
  link_status
    (gnb_validate_node Examples.page
       (Examples.responds 200 "https://example.com/b")
       (Examples.link "L1" "/a")).2 = 200
  /\ (link_validate_desc
        (gnb_validate_node Examples.page
           (Examples.responds 200 "https://example.com/b")
           (Examples.link "L1" "/a")).2 = ""
      \/ exists final,
           link_validate_desc
             (gnb_validate_node Examples.page
                (Examples.responds 200 "https://example.com/b")
                (Examples.link "L1" "/a")).2
           = "Redirected to " ++ final).
Proof.
  destruct (validated_node_fields Utils.refine_url Utils.standardize_url Gnb
              Examples.page (Examples.responds 200 "https://example.com/b")
              (Examples.link "L1" "/a")) as [H|[H _]].
  - intros k. reflexivity.
  - reflexivity.
  - exact H.
  - discriminate H.
Defined.

(** C6 fails as stated.  A response 200 does not always give the verdict:
    when the tab fails to close, the attempt is retried and the node ends
    with the message of the exception as its description; when the final URL
    is one [urlparse] rejects, the node is not validated. *)
Lemma status_200_without_verdict :
  gnb_validate_node Examples.page
    (Examples.closing_fails "https://example.com/uk/shop")
    (Examples.link "L1" "/uk/shop/")
  = (Returned, 5%nat,
     mkNode "L1" "menu" "/uk/shop/" 200 true
       "Exception: Target page, context or browser has been closed")
  /\ gnb_validate_node Examples.page
       (Examples.responds 200 "https://[example.com/uk/shop")
       (Examples.link "L1" "/uk/shop/")
     = (Returned, 5%nat,
        mkNode "L1" "menu" "/uk/shop/" 200 false
          "Exception: Invalid IPv6 URL").
Proof. split; vm_compute; reflexivity. Qed.

Lemma gnb_status_200_redirect_detection_witness :
  gnb_validate_node Examples.page
    (Examples.responds 200 "https://example.com/uk/shop")
    (Examples.link "L1" "/uk/shop/")
  = (Returned, 1%nat, mkNode "L1" "menu" "/uk/shop/" 200 true "")
  /\ gnb_validate_node Examples.page
       (Examples.answers_third 200 "https://example.com/uk/login?next=shop")
       (Examples.link "L1" "/uk/shop/")
     = (Returned, 3%nat,
        mkNode "L1" "menu" "/uk/shop/" 200 true
          "Redirected to https://example.com/uk/login?next=shop").
Proof.
  split.
  - apply (gnb_status_200_redirect_detection Examples.page
             (Examples.responds 200 "https://example.com/uk/shop")
             (Examples.link "L1" "/uk/shop/") 0
             "https://example.com/uk/shop" "https://example.com/uk/shop/"
             "https://example.com/uk/shop" "https://example.com/uk/shop").
    + discriminate.
    + vm_compute. reflexivity.
    + vm_compute. reflexivity.
    + vm_compute. reflexivity.
    + unfold max_retries. lia.
    + intros j Hj. lia.
    + reflexivity.
  - apply (gnb_status_200_redirect_detection Examples.page
             (Examples.answers_third 200
                "https://example.com/uk/login?next=shop")
             (Examples.link "L1" "/uk/shop/") 2
             "https://example.com/uk/login?next=shop"
             "https://example.com/uk/shop/"
             "https://example.com/uk/shop"
             "https://example.com/uk/login?next=shop").
    + discriminate.
    + vm_compute. reflexivity.
    + vm_compute. reflexivity.
    + vm_compute. reflexivity.
    + unfold max_retries. lia.
    + intros [|[|j]] Hj; [reflexivity|reflexivity|lia].
    + reflexivity.
Defined.

(** C7 fails as stated: with the variable set to ["abc"] the function raises
    [ValueError] and no pool is started. *)
Lemma non_numeric_concurrency_raises :
  check_link_validity_start Gnb (Some "abc") Examples.menu_store Examples.menu
  = Raise "invalid literal for int() with base 10: 'abc'".
Proof. reflexivity. Qed.

Lemma concurrency_from_environment_witness :
  (check_link_validity_start Gnb (Some "3") Examples.menu_store Examples.menu
   = Ok (start Gnb 3 Examples.menu_store Examples.menu)
   /\ tasks (start Gnb 3 Examples.menu_store Examples.menu)
      = [Waiting; Waiting; Waiting])
  /\ check_link_validity_start Shop (Some " +1_0 ") Examples.menu_store
       Examples.menu
     = Ok (start Shop 10 Examples.menu_store Examples.menu)
  /\ (exists msg,
        check_link_validity_start Gnb (Some "2 workers") Examples.menu_store
          Examples.menu = Raise msg).
Proof.
  split; [|split].
  - destruct (concurrency_from_environment Gnb Examples.menu_store
                Examples.menu) as (_ & Hn & _).
    apply (Hn 3). change (1 <= 4300)%nat. lia.
  - destruct (concurrency_from_environment Shop Examples.menu_store
                Examples.menu) as (_ & _ & Hs & _).
    apply (Hs " +1_0 " 10). vm_compute. reflexivity.
  - destruct (concurrency_from_environment Gnb Examples.menu_store
                Examples.menu) as (_ & _ & _ & _ & Hl).
    apply (Hl "2 workers"). reflexivity.
Defined.

(** C2 fails as stated.  In shop an L0 node without URL is put on the queue
    and validated: its fields change.  In gnb a node whose URL is a blank is
    put on the queue. *)
Lemma empty_url_nodes_are_enqueued :
  url (Examples.menu_store 0%nat) = ""
  /\ all_nodes_of Shop Examples.menu_store Examples.menu = [0; 1; 2]%nat
  /\ run Utils.refine_url Utils.standardize_url Shop Examples.page
       Examples.answering_browser [0%nat]
       (start Shop 1 Examples.menu_store Examples.menu)
     = Some (Examples.shop_after Examples.answering_browser 1
               Examples.menu_store Examples.menu [0%nat])
  /\ heap (Examples.shop_after Examples.answering_browser 1
             Examples.menu_store Examples.menu [0%nat]) 0%nat
     = mkNode "L0" "menu" "" (-1) true "L0 has no link by design"
  /\ Examples.menu_store 0%nat = mkNode "L0" "menu" "" 7 true "not applicable"
  /\ PyStr.strip is_space (url (Examples.blank_store 0%nat)) = ""
  /\ all_nodes_of Gnb Examples.blank_store [Tree 0%nat []] = [0%nat].
Proof. repeat split; vm_compute; reflexivity. Qed.

Lemma node_without_link_untouched_witness :
  (3%nat ∉ it_node <$> queue (start Gnb 2 Examples.menu_store Examples.menu))
  /\ (3%nat ∉ it_node <$>
        (handed (Examples.gnb_after Examples.answering_browser 2
                   Examples.menu_store Examples.menu [0; 1; 0]%nat)).*2)
  /\ heap (Examples.gnb_after Examples.answering_browser 2
             Examples.menu_store Examples.menu [0; 1; 0]%nat) 3%nat
     = Examples.menu_store 3%nat.
Proof.
  apply (node_without_link_untouched Utils.refine_url Utils.standardize_url
           Gnb Examples.page Examples.answering_browser).
  - reflexivity.
  - discriminate.
  - apply run_rtc with (sched := [0; 1; 0]%nat). vm_compute. reflexivity.
Defined.

(** C4 fails as stated.  One worker, two items: the first attempt on the
    first item is aborted by an exception.  The worker's task ends, the
    second item stays on the queue, nothing is recorded on the first node,
    no worker can run and [queue.join()] cannot return. *)
Lemma aborted_worker_blocks_the_queue :
  gnb_run Examples.page Examples.aborting_browser [0; 0]%nat
    (start Gnb 1 Examples.menu_store Examples.menu)
  = Some (Examples.gnb_after Examples.aborting_browser 1 Examples.menu_store
            Examples.menu [0; 0]%nat)
  /\ tasks (Examples.gnb_after Examples.aborting_browser 1
              Examples.menu_store Examples.menu [0; 0]%nat) = [Ended]
  /\ queue (Examples.gnb_after Examples.aborting_browser 1
              Examples.menu_store Examples.menu [0; 0]%nat)
     = [mkItem 2%nat 2%nat 2%nat]
  /\ heap (Examples.gnb_after Examples.aborting_browser 1
             Examples.menu_store Examples.menu [0; 0]%nat) 1%nat
     = mkNode "L1" "menu" "/a" (-1) false ""
  /\ joined (Examples.gnb_after Examples.aborting_browser 1
               Examples.menu_store Examples.menu [0; 0]%nat) = false
  /\ blocked Utils.refine_url Utils.standardize_url Gnb Examples.page
       Examples.aborting_browser
       (Examples.gnb_after Examples.aborting_browser 1 Examples.menu_store
          Examples.menu [0; 0]%nat).
Proof.
  do 5 (split; [vm_compute; reflexivity|]).
  intros [|w]; vm_compute; reflexivity.
Qed.

Lemma escaping_exception_ends_worker_witness :
  exists p',
    gnb_worker_step Examples.page Examples.aborting_browser 0%nat
      (Examples.gnb_after Examples.aborting_browser 1 Examples.menu_store
         Examples.menu [0%nat]) = Some p'
    /\ tasks p' = [Ended]
    /\ queue p' = [mkItem 2%nat 2%nat 2%nat].
Proof.
  destruct (escaping_exception_ends_worker Utils.refine_url
              Utils.standardize_url Gnb Examples.page
              Examples.aborting_browser
              (Examples.gnb_after Examples.aborting_browser 1
                 Examples.menu_store Examples.menu [0%nat])
              0%nat (mkItem 1%nat 1%nat 2%nat) "/a" "https://example.com/a" 0%nat (-1))
    as (p' & Hstep & Htasks & _ & Hqueue & _).
  - reflexivity.
  - reflexivity.
  - reflexivity.
  - exists p'. split; [exact Hstep|]. split.
    + rewrite Htasks. reflexivity.
    + rewrite Hqueue. reflexivity.
Defined.

Lemma each_node_validated_by_one_worker_witness :
  ((handed (Examples.gnb_after Examples.answering_browser 2
              Examples.menu_store Examples.menu [0; 1]%nat)).*2
   ++ queue (Examples.gnb_after Examples.answering_browser 2
               Examples.menu_store Examples.menu [0; 1]%nat))%list
  = enqueue (all_nodes_of Gnb Examples.menu_store Examples.menu)
  /\ tasks (Examples.gnb_after Examples.answering_browser 2
              Examples.menu_store Examples.menu [0; 1]%nat)
     = [Validating (mkItem 1%nat 1%nat 2%nat) "/a" 0%nat (-1);
        Validating (mkItem 2%nat 2%nat 2%nat) "/b" 0%nat (-1)].
Proof.
  split; [|reflexivity].
  apply (each_node_validated_by_one_worker Utils.refine_url
           Utils.standardize_url Gnb Examples.page Examples.answering_browser
           2 Examples.menu_store Examples.menu).
  - apply (bool_decide_unpack _). vm_compute. exact I.
  - apply run_rtc with (sched := [0; 1]%nat). vm_compute. reflexivity.
Defined.

(** * Further properties of the code *)

(** ** [validate_node] *)
Section ValidatorMore.
Variable refine_url : string -> string -> result string.
Variable standardize_url : string -> result string.
Variable v : variant.

Local Abbreviation attempt_once := (attempt_once refine_url standardize_url).
Local Abbreviation attempts := (attempts refine_url standardize_url).
Local Abbreviation validate_node :=
  (validate_node refine_url standardize_url v).

Lemma attempt_once_identity (a : attempt) (u base : string) (sc : Z) (n : node) :
  same_identity n (attempt_once a u base sc n).2.
Proof.
  unfold Engine.attempt_once, same_identity, after_close.
  repeat match goal with
         | |- context [match ?x with _ => _ end] => destruct x
         end;
    repeat split; reflexivity.
Qed.

Lemma attempts_identity (world : nat -> attempt) (u base : string) :
  forall (left retries : nat) (sc : Z) (n : node),
    same_identity n (attempts world u base left retries sc n).2.
Proof.
  induction left as [|left IH]; intros retries sc n; cbn [Engine.attempts].
  - repeat split; reflexivity.
  - pose proof (attempt_once_identity (world retries) u base sc n) as H1.
    destruct (attempt_once (world retries) u base sc n) as [[f sc'] n1].
    simpl in H1. destruct f; try exact H1.
    specialize (IH (S retries) sc' n1).
    destruct H1 as (Ht & Hn & Hu), IH as (Ht' & Hn' & Hu').
    repeat split; congruence.
Qed.

Lemma attempts_count (world : nat -> attempt) (u base : string) :
  forall (left retries : nat) (sc : Z) (n : node),
    (retries + (if (left =? 0)%nat then 0 else 1)
     <= (attempts world u base left retries sc n).1.2
     <= retries + left)%nat.
Proof.
  induction left as [|left IH]; intros retries sc n; cbn [Engine.attempts].
  - simpl. lia.
  - destruct (attempt_once (world retries) u base sc n) as [[f sc'] n1].
    destruct f; simpl; try lia.
    specialize (IH (S retries) sc' n1).
    destruct (left =? 0)%nat; simpl in *; lia.
Qed.

(** [validate_node] writes the three result fields and nothing else: the
    type, the name and the URL of the node are as before. *)
Theorem validate_node_keeps_identity (page_url : string)
    (world : nat -> attempt) (n : node) :
  node_type (validate_node page_url world n).2 = node_type n
  /\ name (validate_node page_url world n).2 = name n
  /\ url (validate_node page_url world n).2 = url n.
Proof.
  unfold Engine.validate_node, Engine.prologue.
  repeat match goal with |- context [if ?b then _ else _] => destruct b end;
    try (repeat split; reflexivity).
  apply (attempts_identity world _ _ max_retries O (-1) (reset n)).
Qed.

(** The number of navigation attempts of one call is at most 5, and it is 0
    exactly for a node without URL. *)
Theorem validate_node_attempts_bounded (page_url : string)
    (world : nat -> attempt) (n : node) :
  ((validate_node page_url world n).1.2 <= 5)%nat
  /\ ((validate_node page_url world n).1.2 = 0%nat <-> url n = "").
Proof.
  unfold Engine.validate_node.
  destruct (is_empty (url n)) eqn:Eu.
  - assert (Hinl : exists n', prologue v n = inl n').
    { unfold Engine.prologue. change (url (reset n)) with (url n). rewrite Eu.
      rewrite ?andb_true_r.
      repeat match goal with |- context [if ?b then _ else _] => destruct b end;
        eauto. }
    destruct Hinl as [n' ->]. apply is_empty_true in Eu. simpl.
    split; [lia|]. split; auto.
  - apply is_empty_false in Eu. rewrite (prologue_with_url v n Eu).
    generalize (attempts_count world (url (reset n)) (base_url_of page_url)
                  max_retries O (-1) (reset n)).
    change (max_retries =? 0)%nat with false. cbv iota.
    generalize (attempts world (url (reset n)) (base_url_of page_url)
                  max_retries O (-1) (reset n)).1.2.
    intros c Hc. unfold max_retries in Hc. split; [lia|].
    split; [lia|congruence].
Qed.

Lemma attempt_once_explained (a : attempt) (u base : string) (sc : Z) (n : node) :
  (attempt_once a u base sc n).1.1 <> Escape ->
  explained (attempt_once a u base sc n).2.
Proof.
  unfold Engine.attempt_once, explained, after_close, on_exception.
  repeat match goal with
         | |- context [match ?x with _ => _ end] => destruct x
         end;
    simpl; intros Hf Hv; try congruence; discriminate.
Qed.

Lemma attempts_explained (world : nat -> attempt) (u base : string) :
  forall (left retries : nat) (sc : Z) (n : node),
    (left = 0%nat -> explained n) ->
    (attempts world u base left retries sc n).1.1 = Returned ->
    explained (attempts world u base left retries sc n).2.
Proof.
  induction left as [|left IH]; intros retries sc n Hn; cbn [Engine.attempts].
  - intros _. exact (Hn eq_refl).
  - pose proof (attempt_once_explained (world retries) u base sc n) as H1.
    destruct (attempt_once (world retries) u base sc n) as [[f sc'] n1].
    simpl in H1. destruct f; simpl.
    + intros Hr. apply IH; [|exact Hr]. intros _. apply H1. discriminate.
    + intros _. apply H1. discriminate.
    + discriminate.
Qed.

(** Every verdict of failure is explained: when [validate_node] returns and
    the node is not validated, its description is not empty. *)
Theorem validate_node_explains_failure (page_url : string)
    (world : nat -> attempt) (n : node) :
  (validate_node page_url world n).1.1 = Returned ->
  link_validate (validate_node page_url world n).2 = false ->
  link_validate_desc (validate_node page_url world n).2 <> "".
Proof.
  unfold Engine.validate_node.
  destruct (prologue v n) as [n'|n'] eqn:Hp.
  - intros _. unfold Engine.prologue in Hp.
    repeat match type of Hp with
           | context [if ?b then _ else _] => destruct b
           end; inversion Hp; subst; simpl; discriminate.
  - apply attempts_explained. unfold max_retries. discriminate.
Qed.

Lemma attempt_once_no_response (u base refined : string) (sc : Z) (n : node) :
  refine_url u base = Ok refined ->
  attempt_once (NavReturns None CloseOk) u base sc n
  = (Continue, sc, set_link_validate_desc "No response" n).
Proof. intros Hr. unfold Engine.attempt_once. rewrite Hr. reflexivity. Qed.

(** When no attempt gets a response object, [validate_node] makes 5 attempts
    and leaves [link_validate = False], [link_status = -1] and the
    description ["No response"]. *)
Theorem never_a_response_five_attempts (page_url : string)
    (world : nat -> attempt) (n : node) (refined : string) :
  url n <> "" ->
  refine_url (url n) (base_url_of page_url) = Ok refined ->
  (forall k, (k < 5)%nat -> world k = NavReturns None CloseOk) ->
  validate_node page_url world n
  = (Returned, 5%nat,
     mkNode (node_type n) (name n) (url n) (-1) false "No response").
Proof.
  intros Hu Hr Hw. unfold Engine.validate_node.
  rewrite (prologue_with_url v n Hu).
  change (url (reset n)) with (url n). unfold max_retries.
  cbn [Engine.attempts].
  rewrite (Hw 0%nat), (attempt_once_no_response _ _ _ _ _ Hr) by lia.
  rewrite (Hw 1%nat), (attempt_once_no_response _ _ _ _ _ Hr) by lia.
  rewrite (Hw 2%nat), (attempt_once_no_response _ _ _ _ _ Hr) by lia.
  rewrite (Hw 3%nat), (attempt_once_no_response _ _ _ _ _ Hr) by lia.
  rewrite (Hw 4%nat), (attempt_once_no_response _ _ _ _ _ Hr) by lia.
  reflexivity.
Qed.

(** An exception leaves [validate_node] only in a pass whose navigation is
    aborted: without such a pass the function returns. *)
Lemma attempts_return (world : nat -> attempt) (u base : string) :
  (forall k, aborts (world k) = false) ->
  forall (left retries : nat) (sc : Z) (n : node),
    (attempts world u base left retries sc n).1.1 = Returned.
Proof.
  intros Hw. induction left as [|left IH]; intros retries sc n;
    cbn [Engine.attempts]; [reflexivity|].
  assert (Hf : (attempt_once (world retries) u base sc n).1.1 <> Escape).
  { specialize (Hw retries). unfold Engine.attempt_once, after_close.
    repeat match goal with
           | |- context [match ?x with _ => _ end] => destruct x
           end; simpl in *; congruence. }
  destruct (attempt_once (world retries) u base sc n) as [[f sc'] n1].
  destruct f; simpl in *; [apply IH|reflexivity|congruence].
Qed.

Theorem validate_node_returns_without_abort (page_url : string)
    (world : nat -> attempt) (n : node) :
  (forall k, aborts (world k) = false) ->
  (validate_node page_url world n).1.1 = Returned.
Proof.
  intros Hw. unfold Engine.validate_node.
  destruct (prologue v n); [reflexivity|]. apply attempts_return, Hw.
Qed.

End ValidatorMore.

(** ** The pool in every state of a run *)
Section PoolMore.
Variable refine_url : string -> string -> result string.
Variable standardize_url : string -> result string.
Variable v : variant.
Variable page_url : string.
Variable world : ref -> nat -> attempt.

Local Abbreviation worker_step :=
  (worker_step refine_url standardize_url v page_url world).
Local Abbreviation step := (step refine_url standardize_url v page_url world).
Local Abbreviation run := (run refine_url standardize_url v page_url world).
Local Abbreviation outcome_at :=
  (outcome refine_url standardize_url v page_url world).
Local Abbreviation progress_inv :=
  (progress_inv refine_url standardize_url v page_url world).

Lemma step_workers (p p' : pool) (w : nat) :
  worker_step w p = Some p' -> length (tasks p') = length (tasks p).
Proof.
  unfold Engine.worker_step.
  repeat match goal with
         | |- context [match ?x with _ => _ end] => destruct x
         end;
    intros H; inversion H; subst; simpl; rewrite ?length_insert; reflexivity.
Qed.

(** The pool is not resized, and the counter [queue.join()] waits on is
    the number of items queued or in validation: [task_done] is called once
    for each item taken, never more. *)
Theorem pool_counts (max_concurrent : Z) (h : store) (nodes : list tree)
    (p : pool) :
  rtc step (start v max_concurrent h nodes) p ->
  length (tasks p) = Z.to_nat max_concurrent
  /\ unfinished p = (length (in_flight (tasks p)) + length (queue p))%nat
  /\ (unfinished p <= length (all_nodes_of v h nodes))%nat.
Proof.
  intros Hrtc.
  pose proof (reachable_inv refine_url standardize_url v page_url world
                max_concurrent h nodes p Hrtc) as Hinv.
  split; [|split].
  - clear Hinv. revert p Hrtc. apply rtc_ind_r.
    + simpl. apply length_replicate.
    + intros p q _ [w Hw] IH. rewrite (step_workers p q w Hw). exact IH.
  - apply Hinv.
  - rewrite (inv_count _ _ _ Hinv), <- length_app.
    pose proof (submseteq_length _ _ (inv_flight _ _ _ Hinv)) as Hle.
    unfold enqueue in Hle. rewrite length_imap in Hle. exact Hle.
Qed.

Section Progress.
Variable all : list item.
Variable h0 : store.
Hypothesis all_distinct : NoDup (it_node <$> all).

Lemma flight_queue_distinct (p : pool) :
  pool_inv all h0 p ->
  NoDup (it_node <$> (in_flight (tasks p) ++ queue p)%list).
Proof.
  intros Hinv.
  destruct (submseteq_Permutation _ _ (inv_flight _ _ _ Hinv)) as [rest Hp].
  pose proof all_distinct as Hnd. rewrite Hp, fmap_app in Hnd.
  apply list.NoDup_app in Hnd. apply Hnd.
Qed.

(** The node of a held item is the node of no queued item and of no item
    held by another worker. *)
Lemma held_node_apart (p : pool) (w : nat) (t : task) (it : item) :
  pool_inv all h0 p ->
  tasks p !! w = Some t -> holding t = Some it ->
  (forall it', it' ∈ queue p -> it_node it' <> it_node it)
  /\ (forall w' t' it', tasks p !! w' = Some t' -> holding t' = Some it' ->
        w' <> w -> it_node it' <> it_node it).
Proof.
  intros Hinv Hw Hh. pose proof (flight_queue_distinct p Hinv) as Hnd.
  rewrite fmap_app in Hnd. apply list.NoDup_app in Hnd.
  destruct Hnd as (HF & Hdisj & _). split.
  - intros it' Hit' Heq. apply (Hdisj (it_node it)).
    + apply list_elem_of_fmap_2. eapply in_flight_lookup; eassumption.
    + rewrite <- Heq. apply list_elem_of_fmap_2, Hit'.
  - intros w' t' it' Hw' Hh' Hne Heq. apply Hne.
    eapply (in_flight_distinct (tasks p) HF); eassumption.
Qed.

(** The node of the first queued item is the node of no other queued item
    and of no held item. *)
Lemma head_node_apart (p : pool) (it : item) (q : list item) :
  pool_inv all h0 p ->
  queue p = it :: q ->
  (forall it', it' ∈ q -> it_node it' <> it_node it)
  /\ (forall w' t' it', tasks p !! w' = Some t' -> holding t' = Some it' ->
        it_node it' <> it_node it).
Proof.
  intros Hinv Hq. pose proof (flight_queue_distinct p Hinv) as Hnd.
  rewrite Hq, fmap_app, fmap_cons in Hnd. apply list.NoDup_app in Hnd.
  destruct Hnd as (_ & Hdisj & Hqnd). apply list.NoDup_cons in Hqnd.
  destruct Hqnd as [Hhead _]. split.
  - intros it' Hit' Heq. apply Hhead. rewrite <- Heq.
    apply list_elem_of_fmap_2, Hit'.
  - intros w' t' it' Hw' Hh' Heq. apply (Hdisj (it_node it')).
    + apply list_elem_of_fmap_2. eapply in_flight_lookup; eassumption.
    + rewrite Heq. apply list_elem_of_here.
Qed.

(** A worker leaves [validate_node] with the outcome on the node. *)
Lemma progress_release (p : pool) (w : nat) (it : item) (u : string)
    (k : nat) (sc : Z) (t' : task) (final : node) (unf : nat) :
  pool_inv all h0 p -> progress_inv all h0 p ->
  tasks p !! w = Some (Validating it u k sc) ->
  holding t' = None ->
  final = (outcome_at h0 (it_node it)).2 ->
  progress_inv all h0
    (mkPool (queue p) unf (<[w := t']> (tasks p))
       (<[it_node it := final]> (heap p)) (handed p)).
Proof.
  intros Hinv Hprog Hw Ht' Hfinal.
  pose proof (lookup_lt_Some _ _ _ Hw) as Hlt.
  destruct (held_node_apart p w _ it Hinv Hw eq_refl) as [Hq Hf].
  constructor; simpl.
  - intros it' Hit'. rewrite fn_lookup_insert_ne.
    + apply Hprog, Hit'.
    + intros E. apply (Hq it' Hit'). symmetry. exact E.
  - intros w' it' u' k' sc' Hw'. destruct (decide (w' = w)) as [->|Hne].
    + rewrite list_lookup_insert_eq in Hw' by exact Hlt.
      injection Hw' as ->. discriminate Ht'.
    + rewrite list_lookup_insert_ne in Hw' by auto.
      rewrite fn_lookup_insert_ne.
      * exact (prog_flight _ _ _ _ _ _ _ _ Hprog _ _ _ _ _ Hw').
      * intros E. apply (Hf w' _ it' Hw' eq_refl Hne). symmetry. exact E.
  - intros r' Hall Hnot. destruct (decide (r' = it_node it)) as [->|Hne].
    + rewrite fn_lookup_insert. exact Hfinal.
    + rewrite fn_lookup_insert_ne by auto.
      apply (prog_done _ _ _ _ _ _ _ _ Hprog); [exact Hall|].
      intros Hin. apply Hnot. rewrite fmap_app, elem_of_app in Hin |- *.
      destruct Hin as [Hin|Hin]; [left|right; exact Hin].
      rewrite <- (in_flight_release (tasks p) w _ it Hw eq_refl t' Ht') in Hin.
      rewrite fmap_cons, elem_of_cons in Hin.
      destruct Hin as [E|Hin]; [contradiction|exact Hin].
Qed.

(** A worker goes on to the next pass of the loop. *)
Lemma progress_continue (p : pool) (w : nat) (it : item) (u : string)
    (k k' : nat) (sc sc' : Z) (n1 : node) :
  pool_inv all h0 p -> progress_inv all h0 p ->
  tasks p !! w = Some (Validating it u k sc) ->
  (k' < max_retries)%nat ->
  attempts refine_url standardize_url (world (it_node it)) u
    (base_url_of page_url) (max_retries - k') k' sc' n1
  = outcome_at h0 (it_node it) ->
  progress_inv all h0
    (mkPool (queue p) (unfinished p)
       (<[w := Validating it u k' sc']> (tasks p))
       (<[it_node it := n1]> (heap p)) (handed p)).
Proof.
  intros Hinv Hprog Hw Hk' Hrest.
  pose proof (lookup_lt_Some _ _ _ Hw) as Hlt.
  destruct (held_node_apart p w _ it Hinv Hw eq_refl) as [Hq Hf].
  constructor; simpl.
  - intros it' Hit'. rewrite fn_lookup_insert_ne.
    + apply Hprog, Hit'.
    + intros E. apply (Hq it' Hit'). symmetry. exact E.
  - intros w' it' u' k2 sc2 Hw'. destruct (decide (w' = w)) as [->|Hne].
    + rewrite list_lookup_insert_eq in Hw' by exact Hlt.
      injection Hw' as <- <- <- <-. rewrite fn_lookup_insert. auto.
    + rewrite list_lookup_insert_ne in Hw' by auto.
      rewrite fn_lookup_insert_ne.
      * exact (prog_flight _ _ _ _ _ _ _ _ Hprog _ _ _ _ _ Hw').
      * intros E. apply (Hf w' _ it' Hw' eq_refl Hne). symmetry. exact E.
  - intros r' Hall Hnot.
    rewrite (in_flight_same (tasks p) w _ _ Hw) in Hnot by reflexivity.
    assert (Hne : r' <> it_node it).
    { intros ->. apply Hnot. rewrite fmap_app, elem_of_app. left.
      apply list_elem_of_fmap_2. eapply in_flight_lookup; [exact Hw|reflexivity]. }
    rewrite fn_lookup_insert_ne by auto.
    apply (prog_done _ _ _ _ _ _ _ _ Hprog); assumption.
Qed.

(** A waiting worker takes the first item and returns from [validate_node]
    before the loop. *)
Lemma progress_skip (p : pool) (w : nat) (it : item) (q : list item)
    (final : node) (unf : nat) (log : list (nat * item)) :
  pool_inv all h0 p -> progress_inv all h0 p ->
  queue p = it :: q ->
  final = (outcome_at h0 (it_node it)).2 ->
  progress_inv all h0
    (mkPool q unf (tasks p) (<[it_node it := final]> (heap p)) log).
Proof.
  intros Hinv Hprog Hq0 Hfinal.
  destruct (head_node_apart p it q Hinv Hq0) as [Hq Hf].
  constructor; simpl.
  - intros it' Hit'. rewrite fn_lookup_insert_ne.
    + apply Hprog. rewrite Hq0. apply list_elem_of_further, Hit'.
    + intros E. apply (Hq it' Hit'). symmetry. exact E.
  - intros w' it' u' k' sc' Hw'. rewrite fn_lookup_insert_ne.
    + exact (prog_flight _ _ _ _ _ _ _ _ Hprog _ _ _ _ _ Hw').
    + intros E. apply (Hf w' _ it' Hw' eq_refl). symmetry. exact E.
  - intros r' Hall Hnot. destruct (decide (r' = it_node it)) as [->|Hne].
    + rewrite fn_lookup_insert. exact Hfinal.
    + rewrite fn_lookup_insert_ne by auto.
      apply (prog_done _ _ _ _ _ _ _ _ Hprog); [exact Hall|].
      intros Hin. apply Hnot. rewrite Hq0 in Hin.
      rewrite fmap_app, elem_of_app, fmap_cons, elem_of_cons in Hin.
      rewrite fmap_app, elem_of_app. tauto.
Qed.

(** A waiting worker takes the first item and enters the loop. *)
Lemma progress_enter (p : pool) (w : nat) (it : item) (q : list item)
    (n' : node) (log : list (nat * item)) :
  pool_inv all h0 p -> progress_inv all h0 p ->
  tasks p !! w = Some Waiting ->
  queue p = it :: q ->
  attempts refine_url standardize_url (world (it_node it)) (url n')
    (base_url_of page_url) max_retries 0 (-1) n'
  = outcome_at h0 (it_node it) ->
  progress_inv all h0
    (mkPool q (unfinished p)
       (<[w := Validating it (url n') 0 (-1)]> (tasks p))
       (<[it_node it := n']> (heap p)) log).
Proof.
  intros Hinv Hprog Hw Hq0 Hrest.
  pose proof (lookup_lt_Some _ _ _ Hw) as Hlt.
  destruct (head_node_apart p it q Hinv Hq0) as [Hq Hf].
  constructor; simpl.
  - intros it' Hit'. rewrite fn_lookup_insert_ne.
    + apply Hprog. rewrite Hq0. apply list_elem_of_further, Hit'.
    + intros E. apply (Hq it' Hit'). symmetry. exact E.
  - intros w' it' u' k' sc' Hw'. destruct (decide (w' = w)) as [->|Hne].
    + rewrite list_lookup_insert_eq in Hw' by exact Hlt.
      injection Hw' as <- <- <- <-. rewrite fn_lookup_insert.
      split; [unfold max_retries; lia|exact Hrest].
    + rewrite list_lookup_insert_ne in Hw' by auto.
      rewrite fn_lookup_insert_ne.
      * exact (prog_flight _ _ _ _ _ _ _ _ Hprog _ _ _ _ _ Hw').
      * intros E. apply (Hf w' _ it' Hw' eq_refl). symmetry. exact E.
  - intros r' Hall Hnot.
    rewrite (in_flight_take (tasks p) w Waiting it Hw eq_refl
               (Validating it (url n') 0 (-1)) eq_refl) in Hnot.
    rewrite fmap_app, elem_of_app, fmap_cons, elem_of_cons in Hnot.
    assert (Hne : r' <> it_node it) by tauto.
    rewrite fn_lookup_insert_ne by auto.
    apply (prog_done _ _ _ _ _ _ _ _ Hprog); [exact Hall|].
    intros Hin. apply Hnot. rewrite Hq0 in Hin.
    rewrite fmap_app, elem_of_app, fmap_cons, elem_of_cons in Hin. tauto.
Qed.

Lemma step_progress (p p' : pool) (w : nat) :
  pool_inv all h0 p -> progress_inv all h0 p ->
  worker_step w p = Some p' -> progress_inv all h0 p'.
Proof.
  intros Hinv Hprog Hstep. unfold Engine.worker_step in Hstep.
  destruct (tasks p !! w) as [[|it u k sc|]|] eqn:Hw; try discriminate.
  - destruct (queue p) as [|it q] eqn:Hq; [discriminate|].
    assert (Hh : heap p (it_node it) = h0 (it_node it)).
    { apply Hprog. rewrite Hq. apply list_elem_of_here. }
    destruct (prologue v (heap p (it_node it))) as [n'|n'] eqn:Hp;
      injection Hstep as <-.
    + apply (progress_skip p w it q _ _ _ Hinv Hprog Hq).
      unfold outcome, validate_node. rewrite <- Hh, Hp. reflexivity.
    + apply (progress_enter p w it q _ _ Hinv Hprog Hw Hq).
      unfold outcome, validate_node. rewrite <- Hh, Hp. reflexivity.
  - destruct (prog_flight _ _ _ _ _ _ _ _ Hprog _ _ _ _ _ Hw) as [Hk Hrest].
    replace (max_retries - k)%nat with (S (max_retries - S k)) in Hrest by lia.
    cbn [Engine.attempts] in Hrest.
    destruct (attempt_once refine_url standardize_url
                (world (it_node it) k) u (base_url_of page_url) sc
                (heap p (it_node it))) as [[f sc'] n1].
    destruct f.
    + destruct (S k <? max_retries)%nat eqn:Hlt; injection Hstep as <-.
      * apply Nat.ltb_lt in Hlt.
        exact (progress_continue p w it u k _ sc _ _ Hinv Hprog Hw Hlt Hrest).
      * apply Nat.ltb_ge in Hlt.
        replace (max_retries - S k)%nat with 0%nat in Hrest by lia.
        eapply (progress_release p w it u k sc _ _ _ Hinv Hprog Hw);
        [reflexivity|].
        rewrite <- Hrest. reflexivity.
    + injection Hstep as <-.
      eapply (progress_release p w it u k sc _ _ _ Hinv Hprog Hw);
        [reflexivity|].
      rewrite <- Hrest. reflexivity.
    + injection Hstep as <-.
      eapply (progress_release p w it u k sc _ _ _ Hinv Hprog Hw);
        [reflexivity|].
      rewrite <- Hrest. reflexivity.
Qed.

End Progress.

Lemma start_progress (max_concurrent : Z) (h : store) (nodes : list tree) :
  progress_inv (enqueue (all_nodes_of v h nodes)) h
    (start v max_concurrent h nodes).
Proof.
  constructor; simpl.
  - reflexivity.
  - intros w it u k sc Hw. apply list_elem_of_lookup_2 in Hw.
    apply elem_of_replicate in Hw. destruct Hw as [Hw _]. discriminate Hw.
  - intros r Hall Hnot. exfalso. apply Hnot.
    rewrite in_flight_replicate_waiting. exact Hall.
Qed.

Lemma reachable_progress (max_concurrent : Z) (h : store) (nodes : list tree)
    (p : pool) :
  NoDup (flat_map tree_refs nodes) ->
  rtc step (start v max_concurrent h nodes) p ->
  progress_inv (enqueue (all_nodes_of v h nodes)) h p.
Proof.
  intros Hnd. revert p. apply rtc_ind_r.
  - apply start_progress.
  - intros p q Hp [w Hw] IH.
    eapply step_progress; [| |exact IH|exact Hw].
    + rewrite enqueue_nodes. apply all_nodes_NoDup, Hnd.
    + eapply reachable_inv, Hp.
Qed.

(** The verdicts do not depend on the schedule.  Over a forest of distinct
    node objects, when [queue.join()] can return, every enqueued node
    carries what [validate_node] makes of it alone, whichever workers ran
    and however their passes were interleaved; a node that was not enqueued
    is as before. *)
Theorem verdicts_are_schedule_independent (max_concurrent : Z) (h : store)
    (nodes : list tree) (p : pool) (r : ref) :
  NoDup (flat_map tree_refs nodes) ->
  rtc step (start v max_concurrent h nodes) p ->
  joined p = true ->
  heap p r
  = if bool_decide (r ∈ all_nodes_of v h nodes)
    then (validate_node refine_url standardize_url v page_url (world r)
            (h r)).2
    else h r.
Proof.
  intros Hnd Hrtc Hj.
  pose proof (reachable_inv refine_url standardize_url v page_url world
                max_concurrent h nodes p Hrtc) as Hinv.
  pose proof (reachable_progress max_concurrent h nodes p Hnd Hrtc) as Hprog.
  apply Nat.eqb_eq in Hj. rewrite (inv_count _ _ _ Hinv) in Hj.
  assert (Hidle : (in_flight (tasks p) ++ queue p)%list = []).
  { destruct (in_flight (tasks p)); [|simpl in Hj; lia].
    destruct (queue p); [reflexivity|simpl in Hj; lia]. }
  destruct (bool_decide_reflect (r ∈ all_nodes_of v h nodes)) as [Hr|Hr].
  - apply (prog_done _ _ _ _ _ _ _ _ Hprog).
    + rewrite enqueue_nodes. exact Hr.
    + rewrite Hidle. apply not_elem_of_nil.
  - apply Hinv. rewrite enqueue_nodes. exact Hr.
Qed.

End PoolMore.

(** ** One worker is enough *)
Section Draining.
Variable refine_url : string -> string -> result string.
Variable standardize_url : string -> result string.
Variable v : variant.
Variable page_url : string.
Variable world : ref -> nat -> attempt.
Hypothesis no_abort : forall r k, aborts (world r k) = false.

Local Abbreviation worker_step :=
  (worker_step refine_url standardize_url v page_url world).
Local Abbreviation run := (run refine_url standardize_url v page_url world).

Lemma run_app (s1 s2 : list nat) :
  forall p p1 p2,
    run s1 p = Some p1 -> run s2 p1 = Some p2 ->
    run (s1 ++ s2)%list p = Some p2.
Proof.
  induction s1 as [|w s1 IH]; intros p p1 p2 H1 H2; simpl in *.
  - injection H1 as ->. exact H2.
  - destruct (worker_step w p) as [q|]; [|discriminate].
    eapply IH; eassumption.
Qed.

Lemma attempt_once_no_escape (r : ref) (k : nat) (u base : string) (sc : Z)
    (n : node) :
  (attempt_once refine_url standardize_url (world r k) u base sc n).1.1
  <> Escape.
Proof.
  pose proof (no_abort r k) as Hw. unfold Engine.attempt_once, after_close.
  repeat match goal with
         | |- context [match ?x with _ => _ end] => destruct x
         end; simpl in *; congruence.
Qed.

(** A worker left alone inside [validate_node] comes back to
    [queue.get()], the item marked done. *)
Lemma solo_attempts_back (w : nat) (it : item) (u : string) :
  forall (left : nat) (p : pool) (k : nat) (sc : Z),
    tasks p !! w = Some (Validating it u k sc) ->
    (k + S left = max_retries)%nat ->
    exists (j : nat) (p' : pool),
      run (replicate j w) p = Some p'
      /\ tasks p' = <[w := Waiting]> (tasks p)
      /\ unfinished p' = pred (unfinished p)
      /\ queue p' = queue p.
Proof.
  induction left as [|left IH]; intros p k sc Hw Hk;
    pose proof (attempt_once_no_escape (it_node it) k u
                  (base_url_of page_url) sc (heap p (it_node it))) as Hne;
    destruct (attempt_once refine_url standardize_url (world (it_node it) k)
                u (base_url_of page_url) sc (heap p (it_node it)))
      as [[f sc'] n1] eqn:Ha; simpl in Hne.
  - exists 1%nat. cbn [replicate Engine.run]. unfold Engine.worker_step.
    rewrite Hw, Ha.
    replace (S k <? max_retries)%nat with false
      by (symmetry; apply Nat.ltb_ge; lia).
    destruct f; [| |congruence]; eexists; (split; [reflexivity|]); auto.
  - destruct f; [| |congruence].
    + set (p1 := mkPool (queue p) (unfinished p)
                   (<[w := Validating it u (S k) sc']> (tasks p))
                   (<[it_node it := n1]> (heap p)) (handed p)).
      destruct (IH p1 (S k) sc') as (j & p' & Hrun & Htasks & Hunf & Hq).
      { simpl. apply list_lookup_insert_eq. eapply lookup_lt_Some, Hw. }
      { lia. }
      exists (S j), p'. cbn [replicate Engine.run]. unfold Engine.worker_step.
      rewrite Hw, Ha.
      replace (S k <? max_retries)%nat with true
        by (symmetry; apply Nat.ltb_lt; lia).
      fold p1. split; [exact Hrun|].
      simpl in Htasks. rewrite list_insert_insert_eq in Htasks. auto.
    + exists 1%nat. cbn [replicate Engine.run]. unfold Engine.worker_step.
      rewrite Hw, Ha. eexists. split; [reflexivity|]. auto.
Qed.

(** A waiting worker left alone empties the queue. *)
Lemma solo_worker_drains (w : nat) :
  forall (q : list item) (p : pool),
    tasks p !! w = Some Waiting ->
    queue p = q ->
    exists (j : nat) (p' : pool),
      run (replicate j w) p = Some p'
      /\ tasks p' = tasks p
      /\ unfinished p' = (unfinished p - length q)%nat
      /\ queue p' = [].
Proof.
  induction q as [|it q IH]; intros p Hw Hq.
  - exists 0%nat, p. simpl. repeat split; [lia|exact Hq].
  - assert (Hone : exists (j : nat) (p1 : pool),
               run (replicate j w) p = Some p1
               /\ tasks p1 = tasks p
               /\ unfinished p1 = pred (unfinished p)
               /\ queue p1 = q).
    { destruct (prologue v (heap p (it_node it))) as [n'|n'] eqn:Hp.
      - exists 1%nat. cbn [replicate Engine.run]. unfold Engine.worker_step.
        rewrite Hw, Hq, Hp. eexists. split; [reflexivity|]. auto.
      - set (p0 := mkPool q (unfinished p)
                     (<[w := Validating it (url n') 0 (-1)]> (tasks p))
                     (<[it_node it := n']> (heap p))
                     (handed p ++ [(w, it)])%list).
        destruct (solo_attempts_back w it (url n') 4 p0 0%nat (-1))
          as (j & p1 & Hrun & Htasks & Hunf & Hq1).
        { simpl. apply list_lookup_insert_eq. eapply lookup_lt_Some, Hw. }
        { reflexivity. }
        exists (S j), p1. cbn [replicate Engine.run]. unfold Engine.worker_step.
        rewrite Hw, Hq, Hp. fold p0. split; [exact Hrun|].
        simpl in Htasks. rewrite list_insert_insert_eq in Htasks.
        rewrite (list_insert_id _ _ _ Hw) in Htasks. auto. }
    destruct Hone as (j1 & p1 & Hrun1 & Htasks1 & Hunf1 & Hq1).
    destruct (IH p1) as (j2 & p2 & Hrun2 & Htasks2 & Hunf2 & Hq2).
    { rewrite Htasks1. exact Hw. }
    { exact Hq1. }
    exists (j1 + j2)%nat, p2. rewrite replicate_add. split.
    + eapply run_app; eassumption.
    + rewrite Htasks2, Htasks1, Hunf2, Hunf1. simpl.
      repeat split; [lia|exact Hq2].
Qed.

(** With at least one worker and a browser that never aborts an attempt,
    the run can be completed: some schedule (the first worker alone) leads
    to a state where every item is marked done and [queue.join()] returns. *)
Theorem one_worker_completes_the_run (max_concurrent : Z) (h : store)
    (nodes : list tree) :
  1 <= max_concurrent ->
  exists (sched : list nat) (p : pool),
    run sched (start v max_concurrent h nodes) = Some p
    /\ joined p = true
    /\ queue p = [].
Proof.
  intros Hmc.
  destruct (solo_worker_drains 0%nat (queue (start v max_concurrent h nodes))
              (start v max_concurrent h nodes))
    as (j & p & Hrun & _ & Hunf & Hq).
  - simpl. apply lookup_replicate_2. lia.
  - reflexivity.
  - exists (replicate j 0%nat), p. split; [exact Hrun|]. split; [|exact Hq].
    unfold joined. rewrite Hunf. simpl. unfold enqueue.
    rewrite length_imap, Nat.sub_diag. reflexivity.
Qed.

End Draining.

(** ** Flattening and counting *)

Lemma filter_flat_map {A B : Type} (f : B -> bool) (g : A -> list B)
    (l : list A) :
  List.filter f (flat_map g l) = flat_map (fun x => List.filter f (g x)) l.
Proof.
  induction l as [|x l IH]; simpl; [reflexivity|].
  rewrite List.filter_app, IH. reflexivity.
Qed.

Lemma flatten_with_link_filter (v : variant) (h : store) (t : tree) :
  flatten_with_link v h t
  = List.filter (fun r => has_link v (h r)) (tree_refs t).
Proof.
  induction t as [r children IH] using tree_ind_forall. simpl.
  assert (Hcs : flat_map (flatten_with_link v h) children
                = List.filter (fun r => has_link v (h r))
                    (flat_map tree_refs children)).
  { rewrite filter_flat_map.
    induction IH as [|c cs Hc _ IHcs]; simpl; [reflexivity|].
    rewrite Hc, IHcs. reflexivity. }
  rewrite Hcs. destruct (has_link v (h r)); reflexivity.
Qed.

(** [flatten_with_link] returns, in pre-order (a node before its children,
    the children in their order), exactly the nodes that have a link. *)
Theorem flatten_is_preorder_filter (v : variant) (h : store) (t : tree) :
  flatten_with_link v h t
  = List.filter (fun r => has_link v (h r)) (tree_refs t).
Proof. apply flatten_with_link_filter. Qed.

Lemma count_where_cons (f : node -> bool) (h : store) (r : ref)
    (l : list ref) :
  count_where f h (r :: l)
  = ((if f (h r) then 1 else 0) + count_where f h l)%nat.
Proof. unfold count_where. simpl. destruct (f (h r)); reflexivity. Qed.

Lemma count_where_app (f : node -> bool) (h : store) (l1 l2 : list ref) :
  count_where f h (l1 ++ l2)%list
  = (count_where f h l1 + count_where f h l2)%nat.
Proof.
  unfold count_where. rewrite List.filter_app. apply length_app.
Qed.

Lemma count_links_spec (h : store) (t : tree) :
  count_links h t = count_where has_url h (tree_refs t).
Proof.
  induction t as [r children IH] using tree_ind_forall.
  cbn [count_links tree_refs]. rewrite count_where_cons. unfold has_url at 1.
  assert (E : forall a,
             fold_left (fun cnt child => (cnt + count_links h child)%nat)
               children a
             = (a + count_where has_url h (flat_map tree_refs children))%nat).
  { induction IH as [|c cs Hc _ IHcs]; intros a; simpl.
    - unfold count_where. simpl. lia.
    - rewrite IHcs, Hc, count_where_app. lia. }
  rewrite E. destruct (is_empty (url (h r))); reflexivity.
Qed.

(** The number of nodes with link that [print_gnb_tree] reports for a root
    is the number of items that gnb's [check_link_validity] puts on the
    queue for it. *)
Theorem count_links_is_queue_length (h : store) (t : tree) :
  count_links h t = length (flatten_with_link Gnb h t).
Proof.
  rewrite count_links_spec, flatten_with_link_filter. reflexivity.
Qed.

Ltac count_arith :=
  repeat match goal with
         | |- context [count_where ?f ?h ?l] =>
             generalize (count_where f h l); intro
         end;
  lia.

Lemma is_type_exclusive (n : node) (a b : string) :
  a <> b -> is_type a n = true -> is_type b n = false.
Proof.
  unfold is_type. intros Hab Ha. apply String.eqb_eq in Ha.
  apply String.eqb_neq. congruence.
Qed.

Lemma count_l1_featured_spec (h : store) (t : tree) :
  forall a b,
    count_l1_featured h t (a, b)
    = ((a + count_where (is_type "L1") h (descendants t))%nat,
       (b + count_where (is_type "Featured") h (descendants t))%nat).
Proof.
  induction t as [r children IH] using tree_ind_forall.
  cbn [count_l1_featured descendants].
  induction IH as [|c cs Hc _ IHcs]; intros a b; cbn [fold_left flat_map].
  - unfold count_where. simpl. f_equal; count_arith.
  - destruct c as [c gcs]. cbn [tree_refs] in *.
    rewrite !count_where_app, !count_where_cons.
    fold (is_type "L1" (h c)). fold (is_type "Featured" (h c)).
    destruct (is_type "L1" (h c)) eqn:E1.
    + rewrite (is_type_exclusive (h c) "L1" "Featured") by (discriminate || exact E1).
      rewrite Hc, IHcs. cbn [descendants]. f_equal; count_arith.
    + destruct (is_type "Featured" (h c));
        rewrite Hc, IHcs; cbn [descendants]; f_equal; count_arith.
Qed.

(** The counts of L1 and Featured nodes that [print_gnb_tree] reports for a
    root are the numbers of such nodes below the root: the root itself is
    not counted, nodes at any depth are. *)
Theorem gnb_brief_counts (h : store) (root : tree) :
  count_l1_featured h root (0%nat, 0%nat)
  = (count_where (is_type "L1") h (descendants root),
     count_where (is_type "Featured") h (descendants root)).
Proof. apply count_l1_featured_spec. Qed.

Lemma count_l1_product_link_spec (h : store) (t : tree) :
  forall a b c,
    count_l1_product_link h t (a, b, c)
    = ((a + count_where (is_type "L1") h (descendants t))%nat,
       (b + count_where (is_type "Product") h (descendants t))%nat,
       (c + count_where has_url h (descendants t))%nat).
Proof.
  induction t as [r children IH] using tree_ind_forall.
  cbn [count_l1_product_link descendants].
  induction IH as [|ch cs Hc _ IHcs]; intros a b c; cbn [fold_left flat_map].
  - unfold count_where. simpl. rewrite !pair_equal_spec; repeat split; count_arith.
  - destruct ch as [c0 gcs]. cbn [tree_refs] in *.
    rewrite !count_where_app, !count_where_cons.
    fold (is_type "L1" (h c0)). fold (is_type "Product" (h c0)).
    unfold has_url at 1.
    destruct (is_type "L1" (h c0)) eqn:E1.
    + rewrite (is_type_exclusive (h c0) "L1" "Product") by (discriminate || exact E1).
      destruct (is_empty (url (h c0)));
        rewrite Hc, IHcs; cbn [descendants negb]; rewrite !pair_equal_spec; repeat split; count_arith.
    + destruct (is_type "Product" (h c0)), (is_empty (url (h c0)));
        rewrite Hc, IHcs; cbn [descendants negb]; rewrite !pair_equal_spec; repeat split; count_arith.
Qed.

Lemma count_where_le (f g : node -> bool) (h : store) (l : list ref) :
  (forall n, f n = true -> g n = true) ->
  (count_where f h l <= count_where g h l)%nat.
Proof.
  intros Hfg. induction l as [|r l IH]; [reflexivity|].
  rewrite !count_where_cons. specialize (Hfg (h r)).
  destruct (f (h r)), (g (h r)); try lia; discriminate (Hfg eq_refl).
Qed.

(** The counts [print_shop_tree] reports for a root: the L1 and Product
    nodes below the root, and the nodes of the whole tree whose URL is not
    empty.  That link count can be smaller than the number of items shop's
    [check_link_validity] puts on the queue for the root, never larger. *)
Theorem shop_brief_counts (h : store) (root : tree) :
  shop_brief h root
  = (count_where (is_type "L1") h (descendants root),
     count_where (is_type "Product") h (descendants root),
     count_where has_url h (tree_refs root))
  /\ (count_where has_url h (tree_refs root)
      <= length (flatten_with_link Shop h root))%nat.
Proof.
  split.
  - destruct root as [r children]. unfold shop_brief.
    rewrite count_l1_product_link_spec. cbn [tree_refs descendants].
    rewrite count_where_cons. unfold has_url at 2.
    destruct (is_empty (url (h r))); reflexivity.
  - rewrite flatten_with_link_filter.
    apply (count_where_le has_url (has_link Shop)).
    intros n Hn. unfold has_url in Hn. simpl. rewrite Hn. reflexivity.
Qed.

(** ** File names *)


Lemma contains_drop (c : ascii) (n : nat) (s : string) :
  contains c s = false -> contains c (drop n s) = false.
Proof.
  revert s. induction n as [|n IH]; intros [|x s]; simpl; auto.
  intros H. apply orb_false_iff in H. apply IH, H.
Qed.

Lemma replace_char_removes (c d : ascii) (s : string) :
  c <> d -> contains c (Files.replace_char c d s) = false.
Proof.
  intros Hcd. induction s as [|x s IH]; simpl; [reflexivity|].
  rewrite IH, orb_false_r. destruct (Ascii.eqb_spec x c) as [->|Hx].
  - apply Ascii.eqb_neq, Hcd.
  - apply Ascii.eqb_neq. congruence.
Qed.

Lemma replace_char_keeps_out (x c d : ascii) (s : string) :
  x <> d -> contains x s = false ->
  contains x (Files.replace_char c d s) = false.
Proof.
  intros Hxd. induction s as [|y s IH]; simpl; [reflexivity|].
  intros H. apply orb_false_iff in H. destruct H as [Hy Hs].
  rewrite (IH Hs), orb_false_r.
  destruct (Ascii.eqb y c); [apply Ascii.eqb_neq, Hxd|exact Hy].
Qed.

Lemma replace_char_length (c d : ascii) (s : string) :
  String.length (Files.replace_char c d s) = String.length s.
Proof. induction s as [|x s IH]; simpl; [reflexivity|]. rewrite IH. reflexivity. Qed.

(** The part of the file name made from the URL contains none of the
    characters [/], [?], [&] and [:], and is as long as the URL without its
    [http://] or [https://] prefix. *)
Theorem safe_url_is_safe (url : string) :
  contains "/" (Files.safe_url url) = false
  /\ contains "?" (Files.safe_url url) = false
  /\ contains "&" (Files.safe_url url) = false
  /\ contains ":" (Files.safe_url url) = false
  /\ String.length (Files.safe_url url)
     = String.length (Files.url_wo_protocol url).
Proof.
  unfold Files.safe_url. repeat split.
  - do 3 (apply replace_char_keeps_out; [discriminate|]).
    apply replace_char_removes. discriminate.
  - do 2 (apply replace_char_keeps_out; [discriminate|]).
    apply replace_char_removes. discriminate.
  - apply replace_char_keeps_out; [discriminate|].
    apply replace_char_removes. discriminate.
  - apply replace_char_removes. discriminate.
  - rewrite !replace_char_length. reflexivity.
Qed.















(** ** Comparing URLs *)
Section UrlComparison.
Import UrlLib Utils.

(** [compare_url_without_domain] is symmetric: whenever it returns for a
    pair of URLs, it returns the same for the swapped pair. *)
Theorem compare_url_symmetric (left_url right_url : string) (b : bool) :
  UrlCompare.compare_url_without_domain left_url right_url = Ok b ->
  UrlCompare.compare_url_without_domain right_url left_url = Ok b.
Proof.
  unfold UrlCompare.compare_url_without_domain.
  rewrite (orb_comm (is_empty right_url)).
  destruct (is_empty left_url || is_empty right_url); [auto|].
  destruct (urlparse left_url) as [pl|ml]; [|discriminate].
  destruct (urlparse right_url) as [pr|mr]; [|discriminate].
  cbn [mbind result_bind].
  rewrite (orb_comm (is_empty (netloc pr))).
  rewrite (String.eqb_sym (rstrip is_slash (path pr))),
    (String.eqb_sym (params pr)), (String.eqb_sym (query pr)),
    (String.eqb_sym (fragment pr)), (String.eqb_sym (scheme pr)).
  auto.
Qed.

(** A URL agrees with itself, except the empty one: with an empty URL on
    either side the answer is [False], and nothing is parsed. *)
Theorem compare_url_reflexive (url other : string) (parsed : ParseResult) :
  url <> "" ->
  urlparse url = Ok parsed ->
  UrlCompare.compare_url_without_domain url url = Ok true
  /\ UrlCompare.compare_url_without_domain "" other = Ok false
  /\ UrlCompare.compare_url_without_domain other "" = Ok false.
Proof.
  intros Hne Hp. unfold UrlCompare.compare_url_without_domain. repeat split.
  - apply is_empty_false in Hne. rewrite Hne, Hp. cbn [orb mbind result_bind].
    rewrite !String.eqb_refl. destruct (is_empty (netloc parsed)); reflexivity.
  - rewrite orb_true_r. reflexivity.
Qed.

(** Two URLs of the same domain that [compare_url_without_domain] finds
    equal have the same standard form. *)
Theorem compare_url_agrees_with_standardize (left_url right_url : string)
    (left_parsed right_parsed : ParseResult) :
  urlparse left_url = Ok left_parsed ->
  urlparse right_url = Ok right_parsed ->
  netloc left_parsed = netloc right_parsed ->
  netloc left_parsed <> "" ->
  UrlCompare.compare_url_without_domain left_url right_url = Ok true ->
  standardize_url left_url = standardize_url right_url.
Proof.
  intros Hl Hr Hnet Hne. unfold UrlCompare.compare_url_without_domain.
  unfold standardize_url. rewrite Hl, Hr. cbn [mbind result_bind].
  destruct (is_empty left_url || is_empty right_url); [discriminate|].
  rewrite <- Hnet. apply is_empty_false in Hne. rewrite Hne. cbn [orb].
  intros H. injection H as H.
  repeat (apply andb_true_iff in H; destruct H as [H ?]).
  repeat match goal with
         | E : String.eqb _ _ = true |- _ => apply String.eqb_eq in E
         end.
  congruence.
Qed.

End UrlComparison.

(** ** The further properties at concrete nodes, browsers and trees *)

Lemma validate_node_explains_failure_witness :
  link_validate_desc
    (gnb_validate_node Examples.page
       (Examples.responds 404 "https://other.com/page")
       (Examples.link "L1" "//other.com/page")).2 <> "".
Proof.
  apply (validate_node_explains_failure Utils.refine_url Utils.standardize_url
           Gnb Examples.page (Examples.responds 404 "https://other.com/page")
           (Examples.link "L1" "//other.com/page")); reflexivity.
Defined.

Lemma never_a_response_five_attempts_witness :
  gnb_validate_node Examples.page Examples.no_response (Examples.link "L1" "/a")
  = (Returned, 5%nat, mkNode "L1" "menu" "/a" (-1) false "No response").
Proof.
  apply (never_a_response_five_attempts Utils.refine_url Utils.standardize_url
           Gnb Examples.page Examples.no_response (Examples.link "L1" "/a")
           "https://example.com/a").
  - discriminate.
  - reflexivity.
  - intros k _. reflexivity.
Defined.

Lemma validate_node_returns_without_abort_witness :
  (gnb_validate_node Examples.page Examples.times_out
     (Examples.link "L1" "/a")).1.1 = Returned.
Proof.
  apply (validate_node_returns_without_abort Utils.refine_url
           Utils.standardize_url Gnb Examples.page Examples.times_out
           (Examples.link "L1" "/a")).
  intros k. reflexivity.
Defined.

Lemma pool_counts_witness :
  length (tasks (Examples.gnb_after Examples.answering_browser 2
                   Examples.menu_store Examples.menu [0; 1]%nat)) = 2%nat
  /\ unfinished (Examples.gnb_after Examples.answering_browser 2
                   Examples.menu_store Examples.menu [0; 1]%nat) = 2%nat.
Proof.
  destruct (pool_counts Utils.refine_url Utils.standardize_url Gnb
              Examples.page Examples.answering_browser 2 Examples.menu_store
              Examples.menu
              (Examples.gnb_after Examples.answering_browser 2
                 Examples.menu_store Examples.menu [0; 1]%nat))
    as (Hlen & Hunf & _).
  - apply run_rtc with (sched := [0; 1]%nat). vm_compute. reflexivity.
  - split; [exact Hlen|]. rewrite Hunf. reflexivity.
Defined.

Lemma verdicts_are_schedule_independent_witness :
  heap (Examples.gnb_after Examples.answering_browser 2 Examples.menu_store
          Examples.menu [0; 1; 1; 0]%nat) 1%nat
  = mkNode "L1" "menu" "/a" 200 true "Redirected to https://example.com/b".
Proof.
  rewrite (verdicts_are_schedule_independent Utils.refine_url
             Utils.standardize_url Gnb Examples.page
             Examples.answering_browser 2 Examples.menu_store Examples.menu
             (Examples.gnb_after Examples.answering_browser 2
                Examples.menu_store Examples.menu [0; 1; 1; 0]%nat) 1%nat).
  - reflexivity.
  - apply (bool_decide_unpack _). vm_compute. exact I.
  - apply run_rtc with (sched := [0; 1; 1; 0]%nat). vm_compute. reflexivity.
  - reflexivity.
Defined.

Lemma one_worker_completes_the_run_witness :
  exists (sched : list nat) (p : pool),
    gnb_run Examples.page Examples.answering_browser sched
      (start Gnb 1 Examples.menu_store Examples.menu) = Some p
    /\ joined p = true
    /\ queue p = [].
Proof.
  apply (one_worker_completes_the_run Utils.refine_url Utils.standardize_url
           Gnb Examples.page Examples.answering_browser).
  - intros r k. reflexivity.
  - lia.
Defined.



Lemma compare_url_symmetric_witness :
  UrlCompare.compare_url_without_domain "/shop/galaxy/"
    "https://aaa.com/shop/galaxy" = Ok true.
Proof.
  apply (compare_url_symmetric "https://aaa.com/shop/galaxy" "/shop/galaxy/"
           true).
  vm_compute. reflexivity.
Defined.

Lemma compare_url_reflexive_witness :
  UrlCompare.compare_url_without_domain "https://aaa.com/shop/galaxy?promo=1"
    "https://aaa.com/shop/galaxy?promo=1" = Ok true.
Proof.
  destruct (compare_url_reflexive "https://aaa.com/shop/galaxy?promo=1" ""
              (UrlLib.mkParse "https" "aaa.com" "/shop/galaxy" "" "promo=1" ""))
    as [H _].
  - discriminate.
  - vm_compute. reflexivity.
  - exact H.
Defined.

Lemma compare_url_agrees_with_standardize_witness :
  Utils.standardize_url "https://aaa.com/shop/galaxy"
  = Utils.standardize_url "https://aaa.com/shop/galaxy//".
Proof.
  apply (compare_url_agrees_with_standardize "https://aaa.com/shop/galaxy"
           "https://aaa.com/shop/galaxy//"
           (UrlLib.mkParse "https" "aaa.com" "/shop/galaxy" "" "" "")
           (UrlLib.mkParse "https" "aaa.com" "/shop/galaxy//" "" "" "")).
  - vm_compute. reflexivity.
  - vm_compute. reflexivity.
  - reflexivity.
  - discriminate.
  - vm_compute. reflexivity.
Defined.
